(** * webserver.go: an item/price store served over HTTP

    The program keeps a [map[string]dollars] behind a [sync.RWMutex] and
    serves five handlers ([list], [price], [create], [update], [delete]).
    This development embeds the handlers as small programs over the
    effects they perform (lock operations, map accesses, writes to the
    response), gives those programs a sequential and an interleaving
    semantics, and proves the properties of the specification about
    them. [list] ranges over the map in an order that Go does not
    specify: it is embedded for every order of the entries, and run
    alone.

    The Go standard library functions the handlers call
    ([strconv.ParseFloat], [fmt.Fprintf] with the verbs [%s], [%q] and
    [%.2f], [url.Values.Get], [http.ResponseWriter]) are modelled after
    their documented behaviour, in modules named after their packages. *)

From Stdlib Require Import ZArith Lia ZifyBool Bool List.
From Stdlib Require Import Strings.String Strings.Ascii DecimalString.
From Stdlib Require DecimalPos DecimalN.
From Stdlib Require Import Floats.SpecFloat.
From stdpp Require Import base option list gmap strings.

Local Open Scope Z_scope.

(** ** Bytes of a Go string *)

(** A Go string is a sequence of bytes; [string] is a sequence of
    [ascii], which are bytes. The library models work on byte codes. *)
Definition byte_code (c : ascii) : Z := Z.of_N (N_of_ascii c).
Definition bytes (s : string) : list Z := byte_code <$> list_ascii_of_string s.
Definition of_byte (b : Z) : ascii := ascii_of_N (Z.to_N b).
Definition of_bytes (l : list Z) : string := string_of_list_ascii (of_byte <$> l).

Notation "# c" := (byte_code c%char) (at level 1, c at level 0, only parsing).

(** ** float32 *)

(** [dollars] is a [float32]. Values are IEEE 754 binary32 numbers in the
    representation of [SpecFloat]: [S754_finite s m e] is
    [(-1)^s * m * 2^e]. *)
Module float32.

Definition prec : Z := 24.
Definition emax : Z := 128.

Definition t : Type := spec_float.

(** The binary32 number nearest to [(-1)^neg * num / den], ties to
    even, for [0 <= num] and [0 < den]; an infinity when the rounded
    magnitude exceeds the largest finite binary32 number. *)
Definition round_ratio (neg : bool) (num den : Z) : t :=
  if num =? 0 then S754_zero neg
  else
    let '(q, e, l) := SFdiv_core_binary prec emax num 0 den 0 in
    binary_round_aux prec emax neg q e l.

(** The binary32 number nearest to [(-1)^neg * mant * base^exp]. *)
Definition round_scaled (neg : bool) (mant base exp : Z) : t :=
  if 0 <=? exp then round_ratio neg (mant * base ^ exp) 1
  else round_ratio neg mant (base ^ (- exp)).

Definition is_inf (f : t) : bool :=
  match f with S754_infinity _ => true | _ => false end.

Definition is_finite (f : t) : bool :=
  match f with S754_zero _ | S754_finite _ _ _ => true | _ => false end.

Definition of_Z (n : Z) : t := round_scaled (n <? 0) (Z.abs n) 2 0.

End float32.

(** ** package unicode/utf8 *)

Module utf8.

Definition RuneError : Z := 0xFFFD.
Definition RuneSelf : Z := 0x80.

(** The [first] table joined with [acceptRanges]: for a leading byte,
    the length of the sequence and the range of its second byte. *)
Definition first (b0 : Z) : option (Z * Z * Z) :=
  if b0 <? 0xC2 then None
  else if b0 <=? 0xDF then Some (2, 0x80, 0xBF)
  else if b0 =? 0xE0 then Some (3, 0xA0, 0xBF)
  else if b0 =? 0xED then Some (3, 0x80, 0x9F)
  else if b0 <=? 0xEF then Some (3, 0x80, 0xBF)
  else if b0 =? 0xF0 then Some (4, 0x90, 0xBF)
  else if b0 <=? 0xF3 then Some (4, 0x80, 0xBF)
  else if b0 =? 0xF4 then Some (4, 0x80, 0x8F)
  else None.

Definition continuation (b : Z) : bool := (0x80 <=? b) && (b <=? 0xBF).

(** [DecodeRuneInString]: the rune and its width in bytes;
    [(RuneError, 1)] for an invalid encoding. *)
Definition DecodeRuneInString (s : list Z) : Z * nat :=
  match s with
  | [] => (RuneError, 0%nat)
  | b0 :: s1 =>
      if b0 <? RuneSelf then (b0, 1%nat)
      else
        match first b0 with
        | None => (RuneError, 1%nat)
        | Some (sz, lo, hi) =>
            match s1 with
            | [] => (RuneError, 1%nat)
            | b1 :: s2 =>
                if (Z.of_nat (length s) <? sz) || (b1 <? lo) || (hi <? b1)
                then (RuneError, 1%nat)
                else if sz <=? 2
                then (Z.lor (Z.shiftl (Z.land b0 0x1F) 6) (Z.land b1 0x3F), 2%nat)
                else
                  match s2 with
                  | [] => (RuneError, 1%nat)
                  | b2 :: s3 =>
                      if negb (continuation b2) then (RuneError, 1%nat)
                      else if sz <=? 3
                      then (Z.lor (Z.shiftl (Z.land b0 0x0F) 12)
                              (Z.lor (Z.shiftl (Z.land b1 0x3F) 6) (Z.land b2 0x3F)),
                            3%nat)
                      else
                        match s3 with
                        | [] => (RuneError, 1%nat)
                        | b3 :: _ =>
                            if negb (continuation b3) then (RuneError, 1%nat)
                            else
                              (Z.lor (Z.shiftl (Z.land b0 0x07) 18)
                                 (Z.lor (Z.shiftl (Z.land b1 0x3F) 12)
                                    (Z.lor (Z.shiftl (Z.land b2 0x3F) 6)
                                       (Z.land b3 0x3F))),
                               4%nat)
                        end
                  end
            end
        end
  end.

(** [AppendRune] on a valid rune. *)
Definition AppendRune (r : Z) : list Z :=
  if r <=? 0x7F then [r]
  else if r <=? 0x7FF then
    [Z.lor 0xC0 (Z.shiftr r 6); Z.lor 0x80 (Z.land r 0x3F)]
  else if r <=? 0xFFFF then
    [Z.lor 0xE0 (Z.shiftr r 12);
     Z.lor 0x80 (Z.land (Z.shiftr r 6) 0x3F);
     Z.lor 0x80 (Z.land r 0x3F)]
  else
    [Z.lor 0xF0 (Z.shiftr r 18);
     Z.lor 0x80 (Z.land (Z.shiftr r 12) 0x3F);
     Z.lor 0x80 (Z.land (Z.shiftr r 6) 0x3F);
     Z.lor 0x80 (Z.land r 0x3F)].

End utf8.

(** The tables of printable runes above U+00FF that [strconv.IsPrint]
    consults ([isPrint16], [isNotPrint16], [isPrint32], [isNotPrint32])
    are data of the Go distribution; the development is parametric in
    them. *)
Class UnicodeTables := { isPrintWide : Z -> bool }.

(** ** package strconv: ParseFloat *)

Module strconv.

(** The [Err] field of a [*NumError]. *)
Inductive error := ErrSyntax | ErrRange.

(** [lower(c)]: [c | ('x' ^ 'X')]. *)
Definition lower (c : Z) : Z := Z.lor c 32.

Definition is_digit (c : Z) : bool := (#"0" <=? c) && (c <=? #"9").
Definition is_hex_letter (c : Z) : bool :=
  (#"a" <=? lower c) && (lower c <=? #"f").

Fixpoint commonPrefixLenIgnoreCase (s prefix : list Z) : nat :=
  match s, prefix with
  | c :: s', p :: prefix' =>
      let c := if (#"A" <=? c) && (c <=? #"Z") then c + (#"a" - #"A") else c in
      if c =? p then S (commonPrefixLenIgnoreCase s' prefix') else O
  | _, _ => O
  end.

Definition inf_prefix (s : list Z) : option nat :=
  let n := commonPrefixLenIgnoreCase s (bytes "infinity") in
  let n := if ((3 <? n) && (n <? 8))%nat then 3%nat else n in
  if ((n =? 3) || (n =? 8))%nat then Some n else None.

(** [special]: the strings [NaN], [Inf] and [Infinity], the last two
    with an optional sign, in any case. Returns the value and the
    number of bytes consumed. *)
Definition special (s : list Z) : option (float32.t * nat) :=
  match s with
  | [] => None
  | c :: s' =>
      if (c =? #"+") || (c =? #"-") then
        n ← inf_prefix s'; Some (S754_infinity (c =? #"-"), S n)
      else if (c =? #"i") || (c =? #"I") then
        n ← inf_prefix s; Some (S754_infinity false, n)
      else if (c =? #"n") || (c =? #"N") then
        if (commonPrefixLenIgnoreCase s (bytes "nan") =? 3)%nat
        then Some (S754_nan, 3%nat) else None
      else None
  end.

(** State of the mantissa loop of [readFloat]. [mantissa] keeps every
    significant digit ([readFloat] keeps 19 and a [trunc] flag, and the
    slow path of [atof32] re-reads the rest), so [nd] is also the
    number of digits in [mantissa]. *)
Record mant_state := MantState {
  sawdot : bool;
  sawdigits : bool;
  underscores : bool;
  nd : Z;
  dp : Z;
  mantissa : Z
}.

Definition mant_init : mant_state := MantState false false false 0 0 0.

(** The [loop:] of [readFloat]; returns the state and what is left of
    the input at the first byte that is not part of the mantissa. *)
Fixpoint read_mantissa (base : Z) (s : list Z) (st : mant_state)
  : mant_state * list Z :=
  match s with
  | [] => (st, [])
  | c :: s' =>
      let '(MantState dot dig und n d m) := st in
      if c =? #"_" then read_mantissa base s' (MantState dot dig true n d m)
      else if c =? #"." then
        if dot then (st, s)
        else read_mantissa base s' (MantState true dig und n n m)
      else if is_digit c then
        if (c =? #"0") && (n =? 0)
        then read_mantissa base s' (MantState dot true und n (d - 1) m)
        else read_mantissa base s'
               (MantState dot true und (n + 1) d (m * base + (c - #"0")))
      else if (base =? 16) && is_hex_letter c then
        read_mantissa base s'
          (MantState dot true und (n + 1) d (m * 16 + (lower c - #"a" + 10)))
      else (st, s)
  end.

(** The digits of the exponent: [e] stops growing at 10000; returns
    [e], whether an underscore was seen, and the rest. *)
Fixpoint read_exp_digits (s : list Z) (e : Z) (und : bool) : Z * bool * list Z :=
  match s with
  | c :: s' =>
      if c =? #"_" then read_exp_digits s' e true
      else if is_digit c then
        read_exp_digits s' (if e <? 10000 then e * 10 + (c - #"0") else e) und
      else (e, und, s)
  | [] => (e, und, [])
  end.

(** The optional exponent: [None] when malformed, otherwise the signed
    exponent ([0] when there is none), whether it was present, whether
    it held an underscore, and the rest. *)
Definition read_exponent (expChar : Z) (s : list Z)
  : option (Z * bool * bool * list Z) :=
  match s with
  | c :: s1 =>
      if lower c =? expChar then
        match s1 with
        | [] => None
        | c1 :: s2 =>
            let esign := if c1 =? #"-" then -1 else 1 in
            let s3 := if (c1 =? #"+") || (c1 =? #"-") then s2 else s1 in
            match s3 with
            | c3 :: _ =>
                if is_digit c3 then
                  let '(e, und, rest) := read_exp_digits s3 0 false in
                  Some (e * esign, true, und, rest)
                else None
            | [] => None
            end
        end
      else Some (0, false, false, s)
  | [] => Some (0, false, false, [])
  end.

(** [underscoreOK]: an underscore must separate digits, or follow the
    base prefix. [saw] is the last byte class seen. *)
Inductive saw_class := SawStart | SawDigit | SawUnderscore | SawOther.

Fixpoint underscore_scan (hex : bool) (s : list Z) (saw : saw_class) : bool :=
  match s with
  | [] => match saw with SawUnderscore => false | _ => true end
  | c :: s' =>
      if is_digit c || (hex && is_hex_letter c) then underscore_scan hex s' SawDigit
      else if c =? #"_" then
        match saw with
        | SawDigit => underscore_scan hex s' SawUnderscore
        | _ => false
        end
      else
        match saw with
        | SawUnderscore => false
        | _ => underscore_scan hex s' SawOther
        end
  end.

Definition strip_sign (s : list Z) : list Z :=
  match s with
  | c :: s' => if (c =? #"-") || (c =? #"+") then s' else s
  | [] => []
  end.

Definition has_base_prefix (s : list Z) : option bool :=
  match s with
  | c0 :: c1 :: _ =>
      if (c0 =? #"0") &&
         ((lower c1 =? #"b") || (lower c1 =? #"o") || (lower c1 =? #"x"))
      then Some (lower c1 =? #"x") else None
  | _ => None
  end.

Definition underscoreOK (s : list Z) : bool :=
  let s := strip_sign s in
  match has_base_prefix s with
  | Some hex => underscore_scan hex (drop 2 s) SawDigit
  | None => underscore_scan false s SawStart
  end.

(** What [readFloat] returns when [ok]: the number read is
    [(-1)^neg * mant * 10^exp], or [(-1)^neg * mant * 2^exp] when
    [hex]; [len] bytes were consumed. *)
Record float_lit := FloatLit {
  lit_neg : bool;
  lit_hex : bool;
  lit_mant : Z;
  lit_exp : Z;
  lit_len : nat
}.

Definition is_hex_prefix (s : list Z) : bool :=
  match s with
  | c0 :: c1 :: _ :: _ => (c0 =? #"0") && (lower c1 =? #"x")
  | _ => false
  end.

(** [readFloat] after the sign: [s] is the whole input, [body] what
    follows the optional sign. *)
Definition read_unsigned (s body : list Z) (neg : bool) : option float_lit :=
  let hex := is_hex_prefix body in
  let base := if hex then 16 else 10 in
  let expChar := if hex then #"p" else #"e" in
  let '(st, rest) := read_mantissa base (if hex then drop 2 body else body) mant_init in
  if negb (sawdigits st) then None
  else
    let dp := if sawdot st then dp st else nd st in
    let dp := if hex then dp * 4 else dp in
    let ndMant := if hex then nd st * 4 else nd st in
    match read_exponent expChar rest with
    | None => None
    | Some (e, present, und, rest') =>
        if hex && negb present then None
        else
          let dp := dp + e in
          let exp := if mantissa st =? 0 then 0 else dp - ndMant in
          let len := (length s - length rest')%nat in
          if (underscores st || und) && negb (underscoreOK (take len s)) then None
          else Some (FloatLit neg hex (mantissa st) exp len)
    end.

Definition readFloat (s : list Z) : option float_lit :=
  match s with
  | [] => None
  | c :: s' =>
      if c =? #"+" then read_unsigned s s' false
      else if c =? #"-" then read_unsigned s s' true
      else read_unsigned s s false
  end.

(** The value of a literal, rounded to nearest even. *)
Definition lit_value (l : float_lit) : float32.t :=
  float32.round_scaled (lit_neg l) (lit_mant l)
    (if lit_hex l then 2 else 10) (lit_exp l).

(** [atof32]: value, bytes consumed, error. An overflow gives an
    infinity together with [ErrRange]. *)
Definition atof32 (s : list Z) : float32.t * nat * option error :=
  match special s with
  | Some (f, n) => (f, n, None)
  | None =>
      match readFloat s with
      | None => (S754_zero false, O, Some ErrSyntax)
      | Some l =>
          let f := lit_value l in
          (f, lit_len l, if float32.is_inf f then Some ErrRange else None)
      end
  end.

(** [ParseFloat(s, 32)]. The result is the [float32] number itself:
    Go returns it widened to [float64], and the conversion back that
    the handlers apply, [dollars(price)], is exact. *)
Definition ParseFloat (s : string) : float32.t * option error :=
  let b := bytes s in
  let '(f, n, err) := atof32 b in
  if negb (n =? length b)%nat &&
     match err with Some ErrSyntax => false | _ => true end
  then (S754_zero false, Some ErrSyntax)
  else (f, err).

(** *** FormatFloat(f, 'f', 2, 32) *)

(** [num / den] rounded to the nearest integer, ties to even: the
    rounding of [decimal.Round] on the exact decimal expansion. *)
Definition round_half_even (num den : Z) : Z :=
  let q := num / den in
  match 2 * (num mod den) ?= den with
  | Lt => q
  | Eq => if Z.even q then q else q + 1
  | Gt => q + 1
  end.

Definition decimal (n : Z) : string :=
  NilZero.string_of_uint (N.to_uint (Z.to_N n)).

(** The hundredths in [m * 2^e], rounded. *)
Definition hundredths (m e : Z) : Z :=
  if 0 <=? e then 100 * m * 2 ^ e
  else round_half_even (100 * m) (2 ^ (- e)).

(** [%e]-free fixed notation with two fraction digits of a number of
    hundredths: the integer part, a point, two digits. *)
Definition fixed2 (q : Z) : string :=
  decimal (q / 100) +:+ "." +:+ decimal (q mod 100 / 10) +:+ decimal (q mod 10).

Definition FormatFloat (f : float32.t) : string :=
  match f with
  | S754_nan => "NaN"
  | S754_infinity s => if s then "-Inf" else "+Inf"
  | S754_zero s => (if s then "-" else "") +:+ fixed2 0
  | S754_finite s m e =>
      (if s then "-" else "") +:+ fixed2 (hundredths (Z.pos m) e)
  end.

(** *** Quote *)

Section Quote.
Context `{UnicodeTables}.

Definition IsPrint (r : Z) : bool :=
  if r <=? 0xFF then
    ((0x20 <=? r) && (r <=? 0x7E)) ||
    ((0xA1 <=? r) && (r <=? 0xFF) && negb (r =? 0xAD))
  else isPrintWide r.

Definition lowerhex (d : Z) : Z :=
  if d <? 10 then #"0" + d else #"a" + (d - 10).

(** Hexadecimal digits of [r], most significant first, [n] of them. *)
Fixpoint hex_digits (n : nat) (r : Z) : list Z :=
  match n with
  | O => []
  | S n' => lowerhex (Z.land (Z.shiftr r (4 * Z.of_nat n')) 0xF) :: hex_digits n' r
  end.

Definition dquote : Z := 34.
Definition backslash : Z := 92.

(** [appendEscapedRune] with the double quote as [quote], neither
    [ASCIIonly] nor [graphicOnly]. *)
Definition appendEscapedRune (r : Z) : list Z :=
  if (r =? dquote) || (r =? backslash) then [backslash; r]
  else if IsPrint r then utf8.AppendRune r
  else if r =? 7 then [backslash; #"a"]
  else if r =? 8 then [backslash; #"b"]
  else if r =? 12 then [backslash; #"f"]
  else if r =? 10 then [backslash; #"n"]
  else if r =? 13 then [backslash; #"r"]
  else if r =? 9 then [backslash; #"t"]
  else if r =? 11 then [backslash; #"v"]
  else if (r <? #" ") || (r =? 0x7F) then [backslash; #"x"] ++ hex_digits 2 r
  else if r <? 0x10000 then [backslash; #"u"] ++ hex_digits 4 r
  else [backslash; #"U"] ++ hex_digits 8 r.

(** The loop of [appendQuotedWith]: [skip] counts the bytes of the
    current rune still to pass over. *)
Fixpoint quote_runes (skip : nat) (s : list Z) : list Z :=
  match s with
  | [] => []
  | b :: s' =>
      match skip with
      | S k => quote_runes k s'
      | O =>
          let '(r, width) :=
            if b <? utf8.RuneSelf then (b, 1%nat) else utf8.DecodeRuneInString s in
          (if (width =? 1)%nat && (r =? utf8.RuneError)
           then [backslash; #"x"] ++ hex_digits 2 b
           else appendEscapedRune r)
          ++ quote_runes (width - 1) s'
      end
  end.

Definition Quote (s : string) : string :=
  of_bytes ([dquote] ++ quote_runes 0 (bytes s) ++ [dquote]).

End Quote.

End strconv.

(** ** package fmt *)

Module fmt.

(** [fmt.fmtFloat] for the verb [%.2f] without flags: the sign that
    [AppendFloat] gives is kept for negative numbers and for the
    infinities, and dropped otherwise. *)
Definition fmtFloat (f : float32.t) : string :=
  let s := strconv.FormatFloat f in
  let num :=
    match s with
    | String c _ => if (c =? "-")%char || (c =? "+")%char then s else "+" +:+ s
    | EmptyString => "+"
    end in
  match num with
  | String sign (String c rest as tail) =>
      if (c =? "I")%char then num
      else if (c =? "N")%char then tail
      else if (sign =? "+")%char then tail
      else num
  | _ => num
  end.

End fmt.

(** ** packages net/url and net/http *)

Module url.

(** [url.Values]: the parsed query, [map[string][]string]. *)
Definition Values : Type := gmap string (list string).

(** [Values.Get]: the first value of the key, or the empty string. *)
Definition Get (v : Values) (key : string) : string :=
  match v !! key with
  | Some (x :: _) => x
  | _ => ""
  end.

End url.

Module http.

Definition StatusOK : Z := 200.
Definition StatusBadRequest : Z := 400.
Definition StatusNotFound : Z := 404.
Definition StatusConflict : Z := 409.

(** A request, as far as the handlers read it: [req.URL.Query()]. *)
Record Request := { Query : url.Values }.

(** What a [ResponseWriter] has been sent: the status code (200 until
    a header is written) and the body. *)
Record ResponseWriter := {
  wroteHeader : bool;
  Code : Z;
  Body : string
}.

Definition NewRecorder : ResponseWriter :=
  {| wroteHeader := false; Code := StatusOK; Body := "" |}.

(** [w.WriteHeader(code)]: ignored once a header has been written. *)
Definition WriteHeader (code : Z) (w : ResponseWriter) : ResponseWriter :=
  if wroteHeader w then w
  else {| wroteHeader := true; Code := code; Body := Body w |}.

(** [w.Write(s)]: writes the header with [StatusOK] first, if none was
    written. *)
Definition Write (s : string) (w : ResponseWriter) : ResponseWriter :=
  let w := WriteHeader StatusOK w in
  {| wroteHeader := true; Code := Code w; Body := Body w +:+ s |}.

End http.

(** ** package main *)

(** [type dollars float32] and its [String] method:
    [fmt.Sprintf("$%.2f", d)]. *)
Definition dollars : Type := float32.t.

Definition String_ (d : dollars) : string := "$" +:+ fmt.fmtFloat d.

(** The line feed that ends every line the handlers print. *)
Definition LF : string := String (ascii_of_N 10) "".

(** [type database struct]: the map of item prices and the mutex that
    guards it. The state of a [sync.RWMutex] is whether a writer holds
    it and how many readers do. *)
Record RWMutex := { writer : bool; readers : nat }.

Definition unlocked : RWMutex := {| writer := false; readers := 0 |}.

Record database := {
  items : gmap string dollars;
  mutex : RWMutex
}.

(** *** Handlers as programs

    A handler is a sequence of operations on the shared [database] (its
    mutex and its map) and on its own [ResponseWriter]. [op] lists the
    operations; a [prog] is an operation followed by the rest of the
    handler, which receives what the operation read from the map. *)
Inductive op :=
  | OpLock
  | OpUnlock
  | OpRLock
  | OpRUnlock
  | OpLookup (key : string)
  | OpStore (key : string) (v : dollars)
  | OpDelete (key : string)
  | OpWriteHeader (code : Z)
  | OpFprintf (text : string).

Inductive prog :=
  | Return
  | Do (o : op) (k : option dollars -> prog).

(** [db.mutex.Lock()], [db.mutex.Unlock()], [db.mutex.RLock()],
    [db.mutex.RUnlock()]. *)
Definition Lock (k : prog) : prog := Do OpLock (fun _ => k).
Definition Unlock (k : prog) : prog := Do OpUnlock (fun _ => k).
Definition RLock (k : prog) : prog := Do OpRLock (fun _ => k).
Definition RUnlock (k : prog) : prog := Do OpRUnlock (fun _ => k).
(** [v, ok := db.items[key]], [db.items[key] = v], [delete(db.items, key)]. *)
Definition MapLookup (key : string) (k : option dollars -> prog) : prog :=
  Do (OpLookup key) k.
Definition MapStore (key : string) (v : dollars) (k : prog) : prog :=
  Do (OpStore key v) (fun _ => k).
Definition MapDelete (key : string) (k : prog) : prog :=
  Do (OpDelete key) (fun _ => k).
(** [w.WriteHeader(code)] and [fmt.Fprintf(w, ...)], with the text the
    format and its arguments produce. *)
Definition WriteHeader (code : Z) (k : prog) : prog :=
  Do (OpWriteHeader code) (fun _ => k).
Definition Fprintf (text : string) (k : prog) : prog :=
  Do (OpFprintf text) (fun _ => k).

(** [seq p q]: [p], then [q] where [p] returns. *)
Fixpoint seq (p q : prog) : prog :=
  match p with
  | Return => q
  | Do o k => Do o (fun r => seq (k r) q)
  end.

(** [defer f; body]: [f] runs when [body] returns, on every path. *)
Definition defer (f : prog -> prog) (body : prog) : prog := seq body (f Return).

Declare Scope prog_scope.
Delimit Scope prog_scope with prog.
Notation "c ;; k" := (c k%prog)
  (at level 100, k at level 200, right associativity, only parsing) : prog_scope.

Section Handlers.
Context `{UnicodeTables}.
Local Open Scope prog_scope.

(** [func (db database) price(w, req)] *)
Definition price (req : http.Request) : prog :=
  RLock ;;
  defer RUnlock (
    let item := url.Get (http.Query req) "item" in
    MapLookup item ;; fun r =>
    match r with
    | Some price => Fprintf (String_ price +:+ LF) ;; Return
    | None =>
        WriteHeader http.StatusNotFound ;;
        Fprintf ("no such item: " +:+ strconv.Quote item +:+ LF) ;; Return
    end).

(** [func (db database) create(w, req)] *)
Definition create (req : http.Request) : prog :=
  Lock ;;
  defer Unlock (
    let item := url.Get (http.Query req) "item" in
    let priceStr := url.Get (http.Query req) "price" in
    let '(price, err) := strconv.ParseFloat priceStr in
    match err with
    | Some _ =>
        WriteHeader http.StatusBadRequest ;;
        Fprintf ("invalid price: " +:+ strconv.Quote priceStr +:+ LF) ;; Return
    | None =>
        MapLookup item ;; fun r =>
        match r with
        | Some _ =>
            WriteHeader http.StatusConflict ;;
            Fprintf ("item already exists: " +:+ strconv.Quote item +:+ LF) ;; Return
        | None =>
            MapStore item price ;;
            Fprintf ("created " +:+ item +:+ ": " +:+ String_ price +:+ LF) ;; Return
        end
    end).

(** [func (db database) update(w, req)] *)
Definition update (req : http.Request) : prog :=
  Lock ;;
  defer Unlock (
    let item := url.Get (http.Query req) "item" in
    let priceStr := url.Get (http.Query req) "price" in
    let '(price, err) := strconv.ParseFloat priceStr in
    match err with
    | Some _ =>
        WriteHeader http.StatusBadRequest ;;
        Fprintf ("invalid price: " +:+ strconv.Quote priceStr +:+ LF) ;; Return
    | None =>
        MapLookup item ;; fun r =>
        match r with
        | None =>
            WriteHeader http.StatusNotFound ;;
            Fprintf ("no such item: " +:+ strconv.Quote item +:+ LF) ;; Return
        | Some _ =>
            MapStore item price ;;
            Fprintf ("updated " +:+ item +:+ ": " +:+ String_ price +:+ LF) ;; Return
        end
    end).

(** [func (db database) delete(w, req)] *)
Definition delete (req : http.Request) : prog :=
  Lock ;;
  defer Unlock (
    let item := url.Get (http.Query req) "item" in
    MapLookup item ;; fun r =>
    match r with
    | None =>
        WriteHeader http.StatusNotFound ;;
        Fprintf ("no such item: " +:+ strconv.Quote item +:+ LF) ;; Return
    | Some _ =>
        MapDelete item ;;
        Fprintf ("deleted " +:+ item +:+ LF) ;; Return
    end).

End Handlers.

(** *** Semantics *)

(** One operation of a handler on the database and on the handler's
    [ResponseWriter]: what the operation read, and the new state.
    [None] when the operation cannot proceed: [Lock] and [RLock] wait
    while the mutex is held, and unlocking a mutex that is not held is a
    fatal error. [RLock] is enabled whenever no writer holds the mutex;
    Go may make it wait for a pending writer as well, so this admits
    every schedule Go does. *)
Definition do_op (o : op) (db : database) (w : http.ResponseWriter)
  : option (option dollars * database * http.ResponseWriter) :=
  let m := mutex db in
  match o with
  | OpLock =>
      if writer m || negb (readers m =? 0)%nat then None
      else Some (None, {| items := items db;
                          mutex := {| writer := true; readers := readers m |} |}, w)
  | OpUnlock =>
      if writer m
      then Some (None, {| items := items db;
                          mutex := {| writer := false; readers := readers m |} |}, w)
      else None
  | OpRLock =>
      if writer m then None
      else Some (None, {| items := items db;
                          mutex := {| writer := false; readers := S (readers m) |} |}, w)
  | OpRUnlock =>
      match readers m with
      | S n => Some (None, {| items := items db;
                              mutex := {| writer := writer m; readers := n |} |}, w)
      | O => None
      end
  | OpLookup key => Some (items db !! key, db, w)
  | OpStore key v =>
      Some (None, {| items := <[key := v]> (items db); mutex := m |}, w)
  | OpDelete key =>
      Some (None, {| items := base.delete key (items db); mutex := m |}, w)
  | OpWriteHeader code => Some (None, db, http.WriteHeader code w)
  | OpFprintf text => Some (None, db, http.Write text w)
  end.

(** One step of a handler. *)
Definition step1 (p : prog) (db : database) (w : http.ResponseWriter)
  : option (prog * database * http.ResponseWriter) :=
  match p with
  | Return => None
  | Do o k =>
      match do_op o db w with
      | Some (r, db', w') => Some (k r, db', w')
      | None => None
      end
  end.

(** A handler run to its return with no other handler running. *)
Fixpoint run (p : prog) (db : database) (w : http.ResponseWriter)
  : option (database * http.ResponseWriter) :=
  match p with
  | Return => Some (db, w)
  | Do o k =>
      match do_op o db w with
      | Some (r, db', w') => run (k r) db' w'
      | None => None
      end
  end.

(** The database holding the entries [m] while no handler runs. *)
Definition idle (m : gmap string dollars) : database :=
  {| items := m; mutex := unlocked |}.

(** Serving one request: the handler runs on the database with a fresh
    [ResponseWriter]. *)
Definition serve (h : http.Request -> prog) (db : database) (req : http.Request)
  : option (database * http.ResponseWriter) :=
  run (h req) db http.NewRecorder.

(** [main]'s database. *)
Definition main_db : database :=
  idle (<["shoes" := float32.of_Z 50]> (<["socks" := float32.of_Z 5]> ∅)).

(** A request with the given query parameters, one value each. *)
Definition request (params : list (string * string)) : http.Request :=
  {| http.Query := list_to_map (prod_map id (fun v => [v]) <$> params) |}.

(** *** The responses of the specification *)

Definition response (code : Z) (body : string) : http.ResponseWriter :=
  {| http.wroteHeader := true; http.Code := code; http.Body := body |}.

Section Responses.
Context `{UnicodeTables}.

Definition NotFound (item : string) : http.ResponseWriter :=
  response 404 ("no such item: " +:+ strconv.Quote item +:+ LF).
Definition AlreadyExists (item : string) : http.ResponseWriter :=
  response 409 ("item already exists: " +:+ strconv.Quote item +:+ LF).
Definition InvalidPrice (priceText : string) : http.ResponseWriter :=
  response 400 ("invalid price: " +:+ strconv.Quote priceText +:+ LF).

End Responses.

Definition Price (d : dollars) : http.ResponseWriter :=
  response 200 (String_ d +:+ LF).
Definition Created (item : string) (d : dollars) : http.ResponseWriter :=
  response 200 ("created " +:+ item +:+ ": " +:+ String_ d +:+ LF).
Definition Updated (item : string) (d : dollars) : http.ResponseWriter :=
  response 200 ("updated " +:+ item +:+ ": " +:+ String_ d +:+ LF).
Definition Deleted (item : string) : http.ResponseWriter :=
  response 200 ("deleted " +:+ item +:+ LF).

(** The parameters a handler reads from a request. *)
Definition item_of (req : http.Request) : string := url.Get (http.Query req) "item".
Definition price_of (req : http.Request) : string := url.Get (http.Query req) "price".

(** Stand-in tables for running examples: no rune above U+00FF is
    printable. The examples use ASCII strings, on which [strconv.Quote]
    never consults the tables. *)
Definition latin1_tables : UnicodeTables := {| isPrintWide := fun _ => false |}.

(** [main]'s routes, without [/list]. *)
Inductive route := RoutePrice | RouteCreate | RouteUpdate | RouteDelete.

Section Mux.
Context `{UnicodeTables}.

(** [mux.HandleFunc]: the handler registered for a route. *)
Definition handler (r : route) : http.Request -> prog :=
  match r with
  | RoutePrice => price
  | RouteCreate => create
  | RouteUpdate => update
  | RouteDelete => delete
  end.

(** Requests served one after the other. *)
Fixpoint serve_all (calls : list (route * http.Request)) (db : database)
  : option database :=
  match calls with
  | [] => Some db
  | (r, req) :: calls' =>
      match serve (handler r) db req with
      | Some (db', _) => serve_all calls' db'
      | None => None
      end
  end.

End Mux.

(** *** The canonical display form *)

Definition is_digit_char (c : ascii) : bool := strconv.is_digit (byte_code c).

(** One or more digits ([seen] says whether one was read), a point, and
    exactly two digits. *)
Fixpoint digits_point_two (s : string) (seen : bool) : bool :=
  match s with
  | String c s' =>
      if is_digit_char c then digits_point_two s' true
      else if (c =? ".")%char then
        seen &&
        match s' with
        | String d1 (String d2 EmptyString) => is_digit_char d1 && is_digit_char d2
        | _ => false
        end
      else false
  | EmptyString => false
  end.

(** A dollar sign followed by a number, negative or not, with exactly
    two fraction digits. *)
Definition canonical (s : string) : bool :=
  match s with
  | String c s' =>
      (c =? "$")%char &&
      match s' with
      | String c' s'' =>
          if (c' =? "-")%char then digits_point_two s'' false
          else digits_point_two s' false
      | EmptyString => false
      end
  | EmptyString => false
  end.

(** *** The number a price is displayed as

    What the display form says of the stored number, in the words of the
    specification: the text is the number, with its sign, rounded to
    hundredths. *)

(** The sign bit of a price. *)
Definition sign_bit (d : dollars) : bool :=
  match d with
  | S754_zero s | S754_infinity s | S754_finite s _ _ => s
  | S754_nan => false
  end.

(** [q] is the whole number of hundredths nearest to [m * 2^e], and the
    even one when two are equally near. *)
Definition nearest_hundredths (m e q : Z) : Prop :=
  if 0 <=? e then q = 100 * m * 2 ^ e
  else
    2 * Z.abs (q * 2 ^ (- e) - 100 * m) <= 2 ^ (- e) /\
    (2 * Z.abs (q * 2 ^ (- e) - 100 * m) = 2 ^ (- e) -> Z.even q = true).

(** The hundredths in the magnitude of a finite price. *)
Definition shows_hundredths (d : dollars) (q : Z) : Prop :=
  match d with
  | S754_zero _ => q = 0
  | S754_finite _ m e => nearest_hundredths (Z.pos m) e q
  | _ => False
  end.

(** The number that a string of decimal digits denotes. *)
Definition numeral_value (s : string) : option Z :=
  match NilZero.uint_of_string s with
  | Some u => Some (Z.of_N (N.of_uint u))
  | None => None
  end.

(** The text of [q] hundredths with the sign [neg]: a dollar sign, a
    minus sign when [neg], the numeral of the whole part, a point, and
    the digits of the tenths and of the hundredths. *)
Definition dollar_text (neg : bool) (q : Z) : string :=
  "$" +:+ (if neg then "-" else "") +:+
  strconv.decimal (q / 100) +:+ "." +:+
  strconv.decimal (q mod 100 / 10) +:+ strconv.decimal (q mod 10).

(** *** Handlers running concurrently

    [net/http] serves every request in a goroutine of its own. A thread
    is what is left of a handler and the [ResponseWriter] it writes to;
    the threads share the database. A step of the system is one
    operation of one thread that can proceed. *)
Abbreviation thread := (prog * http.ResponseWriter)%type.

Record config := { shared : database; threads : list thread }.

Inductive step : config -> config -> Prop :=
  | step_thread (c : config) (i : nat) (p p' : prog)
      (w w' : http.ResponseWriter) (db' : database) :
      threads c !! i = Some (p, w) ->
      step1 p (shared c) w = Some (p', db', w') ->
      step c {| shared := db'; threads := <[i := (p', w')]> (threads c) |}.

Definition steps : config -> config -> Prop := rtc step.

Definition is_Return (p : prog) : bool :=
  match p with Return => true | Do _ _ => false end.

(** Every handler has returned. *)
Definition returned (c : config) : Prop :=
  Forall (fun t : thread => is_Return t.1 = true) (threads c).

(** One thread per request, all running the handler [h], none started. *)
Definition launch (h : http.Request -> prog) (db : database)
  (reqs : list http.Request) : config :=
  {| shared := db; threads := (fun req => (h req, http.NewRecorder)) <$> reqs |}.

Definition responses (c : config) : list http.ResponseWriter := snd <$> threads c.

(** How many responses carry the status [code]. *)
Definition count_code (code : Z) (ws : list http.ResponseWriter) : nat :=
  length (filter (fun w => http.Code w = code) ws).

(** *** Plain names

    A byte is plain when it is printable ASCII and neither the double
    quote nor the backslash; [%q] prints a string of plain bytes as it
    is, between double quotes. *)
Definition plain_byte (b : Z) : bool :=
  (0x20 <=? b) && (b <=? 0x7E) && negb (b =? 34) && negb (b =? 92).

Definition plain (s : string) : Prop :=
  Forall (fun b => plain_byte b = true) (bytes s).

Definition double_quoted (s : string) : string :=
  String (of_byte 34) (s +:+ String (of_byte 34) EmptyString).

(** Strings of digits. *)
Fixpoint all_digits (s : string) : bool :=
  match s with
  | EmptyString => true
  | String c s' => is_digit_char c && all_digits s'
  end.

(** *** Price texts *)

(** The text starts with a digit or a point: it carries no sign and is
    none of the special names. *)
Definition starts_unsigned (b : list Z) : bool :=
  match b with
  | c :: _ => strconv.is_digit c || (c =? #".")
  | [] => false
  end.



(** *** The critical section *)

(** Operations that touch neither lock. *)
Definition local_op (o : op) : bool :=
  match o with
  | OpLock | OpUnlock | OpRLock | OpRUnlock => false
  | _ => true
  end.

(** What is left of a handler that holds the write lock: operations on
    the map and the response, then [Unlock], then the return. *)
Inductive in_critical_section : prog -> Prop :=
  | cs_unlock : in_critical_section (Unlock Return)
  | cs_do (o : op) (k : option dollars -> prog) :
      local_op o = true ->
      (forall r, in_critical_section (k r)) ->
      in_critical_section (Do o k).

(** The database while a writer holds the mutex. *)
Definition held (m : gmap string dollars) : database :=
  {| items := m; mutex := {| writer := true; readers := 0 |} |}.

(** [within k p]: the handler [p] returns after at most [k] operations,
    whatever it reads from the map. *)
Inductive within : nat -> prog -> Prop :=
  | within_Return (k : nat) : within k Return
  | within_Do (k : nat) (o : op) (cont : option dollars -> prog) :
      (forall r, within k (cont r)) -> within (S k) (Do o cont).

(** The operations the threads have left are within the budgets [ks]. *)
Definition budgets (ts : list thread) (ks : list nat) : Prop :=
  Forall2 (fun (t : thread) (k : nat) => within k t.1) ts ks.

Section RaceInvariant.
Context `{UnicodeTables}.

(** A thread that has not started its [create]. *)
Definition waiting (req : http.Request) : thread := (create req, http.NewRecorder).

(** The states the threads can be in while nobody holds the mutex, for
    creates of the name [n] on the store [m]: either no thread has
    started, or one thread [i] has created the entry and returned, and
    every other thread has not started or has returned with
    [AlreadyExists]. *)
Definition settled (m : gmap string dollars) (n : string)
  (reqs : list http.Request) (M : gmap string dollars) (ts : list thread) : Prop :=
  (M = m /\ ts = waiting <$> reqs) \/
  (exists (i : nat) (req : http.Request) (d : dollars),
     reqs !! i = Some req /\
     strconv.ParseFloat (price_of req) = (d, None) /\
     M = <[n := d]> m /\
     ts !! i = Some (Return, Created n d) /\
     length ts = length reqs /\
     forall (j : nat) (req' : http.Request),
       j <> i -> reqs !! j = Some req' ->
       ts !! j = Some (waiting req') \/ ts !! j = Some (Return, AlreadyExists n)).

(** The invariant of the race: nobody holds the mutex and the threads
    are settled, or one thread is in its critical section and the
    threads are settled once it has run to its return. *)
Definition race_inv (m : gmap string dollars) (n : string)
  (reqs : list http.Request) (c : config) : Prop :=
  (exists M, shared c = idle M /\ settled m n reqs M (threads c)) \/
  (exists M (j : nat) (p : prog) (w : http.ResponseWriter)
          (M' : gmap string dollars) (w' : http.ResponseWriter),
     shared c = held M /\
     threads c !! j = Some (p, w) /\
     in_critical_section p /\
     run p (held M) w = Some (idle M', w') /\
     settled m n reqs M' (<[j := (Return, w')]> (threads c))).

(** The requests of the race: creates of the name [n] whose price texts
    parse. *)
Definition creates_of (n : string) (reqs : list http.Request) : Prop :=
  Forall (fun req => item_of req = n /\
                     (strconv.ParseFloat (price_of req)).2 = None) reqs.

End RaceInvariant.

(** *** The [list] handler *)

(** The line [list] prints for an entry:
    [fmt.Fprintf(w, "%s: %s\n", item, price)]. *)
Definition entry_line (e : string * dollars) : string :=
  e.1 +:+ ": " +:+ String_ e.2 +:+ LF.

(** The loop [for item, price := range db.items], for the entries in
    the order in which [range] yields them, followed by [k]. *)
Fixpoint range_items (entries : list (string * dollars)) (k : prog) : prog :=
  match entries with
  | [] => k
  | e :: rest => Fprintf (entry_line e) (range_items rest k)
  end.

(** [func (db database) list(w, req)]. Go does not specify the order in
    which [range] visits a map: the handler is given for every order
    [entries], and [ranges] says which orders the map allows. The
    handler does not read the request. *)
Definition list_ (entries : list (string * dollars)) (req : http.Request) : prog :=
  RLock (defer RUnlock (range_items entries Return)).

(** What [range] can yield on the map [m]: every entry once, in any
    order. *)
Definition ranges (m : gmap string dollars) (entries : list (string * dollars)) : Prop :=
  entries ≡ₚ map_to_list m.

(** The lines of the entries, one after the other. *)
Definition listing (entries : list (string * dollars)) : string :=
  foldr (fun e s => entry_line e +:+ s) "" entries.

(** *** Sequences of requests *)

(** The call sets the price [d] for the name [n]: it is a [create] or an
    [update] of [n] whose price text parses to [d]. *)
Definition sets_price (c : route * http.Request) (n : string) (d : dollars) : Prop :=
  (c.1 = RouteCreate \/ c.1 = RouteUpdate) /\
  item_of c.2 = n /\
  strconv.ParseFloat (price_of c.2) = (d, None).

(** *** Any mix of handlers running concurrently *)

(** The operations between [RLock] and [RUnlock]: they read the map and
    write to the response. *)
Definition read_op (o : op) : bool :=
  match o with
  | OpLookup _ | OpWriteHeader _ | OpFprintf _ => true
  | _ => false
  end.

(** What is left of a handler that holds the read lock: operations that
    read the map and write the response, then [RUnlock], then the
    return. *)
Inductive in_read_section : prog -> Prop :=
  | rs_unlock : in_read_section (RUnlock Return)
  | rs_do (o : op) (k : option dollars -> prog) :
      read_op o = true ->
      (forall r, in_read_section (k r)) ->
      in_read_section (Do o k).

(** The database while [k] readers and no writer hold the mutex. *)
Definition reading (m : gmap string dollars) (k : nat) : database :=
  {| items := m; mutex := {| writer := false; readers := k |} |}.

(** The operation a handler performs next. *)
Definition next_op (p : prog) : option op :=
  match p with
  | Return => None
  | Do o _ => Some o
  end.

(** Accesses to the map [db.items]. *)
Definition writes_map (o : op) : bool :=
  match o with
  | OpStore _ _ | OpDelete _ => true
  | _ => false
  end.

Definition accesses_map (o : op) : bool :=
  match o with
  | OpLookup _ | OpStore _ _ | OpDelete _ => true
  | _ => false
  end.

Section Calls.
Context `{UnicodeTables}.

(** One thread per call, each running the handler of its route, none
    started. *)
Definition launch_calls (db : database) (calls : list (route * http.Request))
  : config :=
  {| shared := db;
     threads := (fun c : route * http.Request =>
                   (handler c.1 c.2, http.NewRecorder)) <$> calls |}.

(** One call served on the store [m] with no other handler running: the
    store it leaves and its response. *)
Definition serve_call (m : gmap string dollars) (c : route * http.Request)
  : gmap string dollars * http.ResponseWriter :=
  match serve (handler c.1) (idle m) c.2 with
  | Some (db, w) => (items db, w)
  | None => (m, http.NewRecorder)
  end.

(** The calls numbered [order] served one after the other, from the
    store [m]: the store they leave and the response of each call, by
    its number. *)
Definition serial_step (calls : list (route * http.Request))
  (st : gmap string dollars * gmap nat http.ResponseWriter) (i : nat)
  : gmap string dollars * gmap nat http.ResponseWriter :=
  match calls !! i with
  | Some c => ((serve_call st.1 c).1, <[i := (serve_call st.1 c).2]> st.2)
  | None => st
  end.

Definition serial (calls : list (route * http.Request))
  (m : gmap string dollars) (order : list nat)
  : gmap string dollars * gmap nat http.ResponseWriter :=
  foldl (serial_step calls) (m, ∅) order.

(** The calls numbered [order], in that order. *)
Definition pick (calls : list (route * http.Request)) (order : list nat)
  : list (route * http.Request) :=
  omap (fun i => calls !! i) order.

(** The invariant of the threads of [calls] started on the store [m].
    [order] lists the threads that have taken the mutex, in the order in
    which they took it; [active] lists those that still hold it. [M] and
    [log] are the store and the responses that serving the calls of
    [order] one after the other gives. A thread that is not in [order]
    has not started; a thread of [order] that is not active has returned
    with its response of [log]. Either no writer holds the mutex, the
    store is [M], and the active threads are readers which, run to their
    return, give their response of [log]; or the one active thread is a
    writer which, run to its return, leaves the store [M] and gives its
    response of [log]. *)
Definition calls_inv (m : gmap string dollars)
  (calls : list (route * http.Request)) (c : config) : Prop :=
  exists (order active : list nat) (M : gmap string dollars)
         (log : gmap nat http.ResponseWriter),
    serial calls m order = (M, log) /\
    NoDup order /\
    length (threads c) = length calls /\
    (forall i cl, calls !! i = Some cl -> i ∉ order ->
       threads c !! i = Some (handler cl.1 cl.2, http.NewRecorder)) /\
    (forall i, i ∈ order -> i ∉ active ->
       exists w, log !! i = Some w /\ threads c !! i = Some (Return, w)) /\
    ((shared c = reading M (length active) /\
      NoDup active /\
      forall i, i ∈ active ->
        i ∈ order /\
        exists p w0 w,
          threads c !! i = Some (p, w0) /\ in_read_section p /\
          log !! i = Some w /\
          run p (reading M 1) w0 = Some (idle M, w)) \/
     (exists (j : nat) (Mcur : gmap string dollars) (p : prog)
             (w0 w : http.ResponseWriter),
        active = [j] /\ j ∈ order /\
        shared c = held Mcur /\
        threads c !! j = Some (p, w0) /\ in_critical_section p /\
        log !! j = Some w /\
        run p (held Mcur) w0 = Some (idle M, w))).

End Calls.

(** The requests of a race of deletes: they all name [n]. *)
Definition deletes_of (n : string) (reqs : list http.Request) : Prop :=
  Forall (fun req => item_of req = n) reqs.

(** *** Whole prices *)

(** The binary32 number [f] is the whole number [n >= 0]: it is
    [m * 2^e] with [e <= 0] and [m = n * 2^(-e)], or it is zero and so
    is [n]. *)
Definition whole_value (f : float32.t) (n : Z) : Prop :=
  match f with
  | S754_zero false => n = 0
  | S754_finite false m e => e <= 0 /\ Z.pos m = n * 2 ^ (- e)
  | _ => False
  end.

(** * Strings *)

Lemma append_cons (c : ascii) (s r : string) :
  String c s +:+ r = String c (s +:+ r).
Proof. reflexivity. Qed.

Lemma append_nil (r : string) : "" +:+ r = r.
Proof. reflexivity. Qed.

(** * What each handler does when it runs alone *)

Section Sequential.
Context `{UnicodeTables}.

Lemma serve_price (m : gmap string dollars) (req : http.Request) :
  serve price (idle m) req =
    Some (idle m,
          match m !! item_of req with
          | Some d => Price d
          | None => NotFound (item_of req)
          end).
Proof.
  unfold serve, price, item_of. cbn.
  destruct (m !! _); reflexivity.
Qed.

Lemma serve_create (m : gmap string dollars) (req : http.Request) :
  serve create (idle m) req =
    Some (match strconv.ParseFloat (price_of req) with
          | (_, Some _) => (idle m, InvalidPrice (price_of req))
          | (d, None) =>
              match m !! item_of req with
              | Some _ => (idle m, AlreadyExists (item_of req))
              | None => (idle (<[item_of req := d]> m), Created (item_of req) d)
              end
          end).
Proof.
  unfold serve, create, item_of, price_of.
  destruct (strconv.ParseFloat _) as [d [e|]]; cbn; [reflexivity|].
  destruct (m !! _); reflexivity.
Qed.

Lemma serve_update (m : gmap string dollars) (req : http.Request) :
  serve update (idle m) req =
    Some (match strconv.ParseFloat (price_of req) with
          | (_, Some _) => (idle m, InvalidPrice (price_of req))
          | (d, None) =>
              match m !! item_of req with
              | None => (idle m, NotFound (item_of req))
              | Some _ => (idle (<[item_of req := d]> m), Updated (item_of req) d)
              end
          end).
Proof.
  unfold serve, update, item_of, price_of.
  destruct (strconv.ParseFloat _) as [d [e|]]; cbn; [reflexivity|].
  destruct (m !! _); reflexivity.
Qed.

Lemma serve_delete (m : gmap string dollars) (req : http.Request) :
  serve delete (idle m) req =
    Some (match m !! item_of req with
          | None => (idle m, NotFound (item_of req))
          | Some _ => (idle (base.delete (item_of req) m), Deleted (item_of req))
          end).
Proof.
  unfold serve, delete, item_of. cbn.
  destruct (m !! _); reflexivity.
Qed.

End Sequential.

(** * Quoting plain names *)

Section QuotePlain.
Context `{UnicodeTables}.

Lemma of_byte_code (c : ascii) : of_byte (byte_code c) = c.
Proof.
  unfold of_byte, byte_code. rewrite N2Z.id. apply ascii_N_embedding.
Qed.

Lemma of_bytes_bytes (s : string) : of_bytes (bytes s) = s.
Proof.
  unfold of_bytes, bytes. induction s as [|c s IH]; [reflexivity|].
  cbn [list_ascii_of_string fmap list_fmap string_of_list_ascii].
  rewrite of_byte_code. f_equal. exact IH.
Qed.

Lemma of_bytes_app (l1 l2 : list Z) :
  of_bytes (l1 ++ l2) = of_bytes l1 +:+ of_bytes l2.
Proof.
  unfold of_bytes. induction l1 as [|b l1 IH]; [reflexivity|].
  cbn [app fmap list_fmap string_of_list_ascii]. rewrite append_cons.
  f_equal. exact IH.
Qed.

Lemma quote_runes_plain (l : list Z) :
  Forall (fun b => plain_byte b = true) l -> strconv.quote_runes 0 l = l.
Proof.
  induction 1 as [|b l Hb _ IH]; [reflexivity|].
  cbn [strconv.quote_runes]. unfold plain_byte in Hb.
  unfold utf8.RuneSelf, utf8.RuneError.
  replace (b <? 128) with true by lia.
  replace ((1 =? 1)%nat && (b =? 65533)) with false by lia.
  unfold strconv.appendEscapedRune, strconv.IsPrint, strconv.dquote,
    strconv.backslash, utf8.AppendRune.
  assert ((32 <=? b) && (b <=? 126) = true) as Hprint by lia.
  replace ((b =? 34) || (b =? 92)) with false by lia.
  replace (b <=? 255) with true by lia.
  rewrite Hprint. cbn [orb].
  replace (b <=? 127) with true by lia.
  cbn [app Nat.sub]. rewrite IH. reflexivity.
Qed.

(** [%q] of a plain name is the name between double quotes. *)
Lemma Quote_plain (s : string) :
  plain s -> strconv.Quote s = double_quoted s.
Proof.
  intros Hs. unfold strconv.Quote, double_quoted.
  rewrite quote_runes_plain by exact Hs.
  rewrite !of_bytes_app, of_bytes_bytes. reflexivity.
Qed.

(** The lines of the error responses, for plain names and texts. *)
Lemma error_bodies (s : string) :
  plain s ->
  http.Body (NotFound s) = "no such item: " +:+ double_quoted s +:+ LF /\
  http.Body (AlreadyExists s) = "item already exists: " +:+ double_quoted s +:+ LF /\
  http.Body (InvalidPrice s) = "invalid price: " +:+ double_quoted s +:+ LF.
Proof.
  intros Hs. unfold NotFound, AlreadyExists, InvalidPrice, response. cbn [http.Body].
  rewrite (Quote_plain s Hs). auto.
Qed.

End QuotePlain.

(** * Create, then read back *)

(** C1. For a name that is not in the store and a price text that
    [ParseFloat] accepts, [create] succeeds (status 200, the line
    [created <item>: <price>]) and stores the parsed price, and a [price]
    request for the same name that follows at once succeeds and shows
    that price. *)
Theorem create_then_price `{UnicodeTables}
  (m : gmap string dollars) (req req' : http.Request) (d : dollars) :
  m !! item_of req = None ->
  strconv.ParseFloat (price_of req) = (d, None) ->
  item_of req' = item_of req ->
  exists db',
    serve create (idle m) req = Some (db', Created (item_of req) d) /\
    items db' !! item_of req = Some d /\
    serve price db' req' = Some (db', Price d) /\
    http.Code (Created (item_of req) d) = http.StatusOK /\
    http.Code (Price d) = http.StatusOK /\
    http.Body (Price d) = String_ d +:+ LF.
Proof.
  intros Hfresh Hparse Hsame.
  exists (idle (<[item_of req := d]> m)).
  rewrite serve_create, Hparse, Hfresh.
  split; [reflexivity|]. split; [|split].
  - cbn. apply lookup_insert_eq.
  - rewrite serve_price, Hsame, lookup_insert_eq. reflexivity.
  - repeat split; reflexivity.
Qed.

Lemma create_then_price_witness :
  let req := request [("item", "widget"); ("price", "9.5")] in
  let req' := request [("item", "widget")] in
  let d := S754_finite false 9961472 (-20) in
  exists db',
    serve (@create latin1_tables) main_db req = Some (db', Created "widget" d) /\
    items db' !! "widget" = Some d /\
    serve (@price latin1_tables) db' req' = Some (db', Price d) /\
    http.Code (Created "widget" d) = 200 /\
    http.Code (Price d) = 200 /\
    http.Body (Price d) = "$9.50" +:+ LF.
Proof.
  intros req req' d.
  apply (@create_then_price latin1_tables
           (items main_db) req req' d); reflexivity.
Defined.

(** * Create on a name that exists *)

Section KeepsItem.
Context `{UnicodeTables}.

(** Every handler leaves the mutex unlocked, and every handler but
    [delete] keeps the names that are in the store. *)
Lemma serve_keeps_item (r : route) (req : http.Request)
  (m : gmap string dollars) (n : string) :
  r <> RouteDelete -> is_Some (m !! n) ->
  exists m' w, serve (handler r) (idle m) req = Some (idle m', w) /\ is_Some (m' !! n).
Proof.
  intros Hr Hn. destruct r; cbn [handler]; [| | |congruence].
  - rewrite serve_price. eauto.
  - rewrite serve_create.
    destruct (strconv.ParseFloat _) as [d [e|]]; [eauto|].
    destruct (m !! item_of req); [eauto|].
    do 2 eexists. split; [reflexivity|].
    rewrite lookup_insert_is_Some. destruct (decide (item_of req = n)); auto.
  - rewrite serve_update.
    destruct (strconv.ParseFloat _) as [d [e|]]; [eauto|].
    destruct (m !! item_of req); [|eauto].
    do 2 eexists. split; [reflexivity|].
    rewrite lookup_insert_is_Some. destruct (decide (item_of req = n)); auto.
Qed.

Lemma serve_all_keeps_item (calls : list (route * http.Request))
  (m : gmap string dollars) (n : string) :
  Forall (fun c => c.1 <> RouteDelete) calls -> is_Some (m !! n) ->
  exists m', serve_all calls (idle m) = Some (idle m') /\ is_Some (m' !! n).
Proof.
  intros Hcalls. revert m.
  induction Hcalls as [|[r req] calls Hr _ IH]; intros m Hn; cbn.
  - eauto.
  - destruct (serve_keeps_item r req m n Hr Hn) as (m' & w & -> & Hn').
    apply IH, Hn'.
Qed.

End KeepsItem.

(** C2. [create] on a name that is in the store, with a price text that
    [ParseFloat] accepts, answers 409 with the line
    [item already exists: <quoted item>] and leaves the store as it was.
    In particular the second of two [create] requests for one name fails
    so, whatever the first one answered, when no [delete] is served
    between them (other requests may be). *)
Theorem create_existing `{UnicodeTables}
  (m : gmap string dollars) (req : http.Request) (d : dollars) :
  strconv.ParseFloat (price_of req) = (d, None) ->
  (forall old, m !! item_of req = Some old ->
     serve create (idle m) req = Some (idle m, AlreadyExists (item_of req)) /\
     http.Code (AlreadyExists (item_of req)) = http.StatusConflict /\
     (plain (item_of req) ->
        http.Body (AlreadyExists (item_of req))
          = "item already exists: " +:+ double_quoted (item_of req) +:+ LF)) /\
  (forall (between : list (route * http.Request)) (req2 : http.Request) (d2 : dollars),
     Forall (fun c => c.1 <> RouteDelete) between ->
     strconv.ParseFloat (price_of req2) = (d2, None) ->
     item_of req2 = item_of req ->
     exists db1 w1 db2,
       serve create (idle m) req = Some (db1, w1) /\
       serve_all between db1 = Some db2 /\
       serve create db2 req2 = Some (db2, AlreadyExists (item_of req))).
Proof.
  intros Hparse. split.
  - intros old Hold. rewrite serve_create, Hparse, Hold.
    split; [reflexivity|]. split; [reflexivity|].
    intros Hplain. apply (error_bodies _ Hplain).
  - intros between req2 d2 Hbetween Hparse2 Hsame.
    assert (exists m1 w1, serve create (idle m) req = Some (idle m1, w1) /\
                          is_Some (m1 !! item_of req)) as (m1 & w1 & Hfirst & Hin).
    { rewrite serve_create, Hparse.
      destruct (m !! item_of req) eqn:E; do 2 eexists; (split; [reflexivity|]).
      - rewrite E. eauto.
      - rewrite lookup_insert_eq. eauto. }
    destruct (serve_all_keeps_item between m1 _ Hbetween Hin) as (m2 & Hall & [old Hold]).
    exists (idle m1), w1, (idle m2). split; [exact Hfirst|]. split; [exact Hall|].
    rewrite serve_create, Hparse2, Hsame, Hold. reflexivity.
Qed.

Lemma create_existing_witness :
  let req := request [("item", "shoes"); ("price", "40")] in
  serve (@create latin1_tables) main_db req
    = Some (main_db, @AlreadyExists latin1_tables "shoes") /\
  exists db1 w1,
    serve (@create latin1_tables) main_db (request [("item", "boots"); ("price", "40")])
      = Some (db1, w1) /\
    serve (@create latin1_tables) db1 (request [("item", "boots"); ("price", "41")])
      = Some (db1, @AlreadyExists latin1_tables "boots").
Proof.
  intros req. split.
  - apply (proj1 (@create_existing latin1_tables (items main_db) req
                    (float32.of_Z 40) eq_refl) (float32.of_Z 50)).
    reflexivity.
  - destruct (proj2 (@create_existing latin1_tables (items main_db)
               (request [("item", "boots"); ("price", "40")])
               (float32.of_Z 40) eq_refl)
               [] (request [("item", "boots"); ("price", "41")])
               (float32.of_Z 41) (List.Forall_nil _) eq_refl eq_refl)
      as (db1 & w1 & db2 & H1 & H2 & H3).
    cbn in H2. injection H2 as <-. exists db1, w1. split; assumption.
Defined.

(** * Prices that do not parse *)

(** C3. When [ParseFloat] rejects the price text, [create] and [update]
    both answer 400 with the line [invalid price: <quoted price>] and
    leave the store as it was, whatever the name. *)
Theorem invalid_price_rejected `{UnicodeTables}
  (m : gmap string dollars) (req : http.Request) (f : float32.t) (e : strconv.error) :
  strconv.ParseFloat (price_of req) = (f, Some e) ->
  serve create (idle m) req = Some (idle m, InvalidPrice (price_of req)) /\
  serve update (idle m) req = Some (idle m, InvalidPrice (price_of req)) /\
  http.Code (InvalidPrice (price_of req)) = http.StatusBadRequest /\
  (plain (price_of req) ->
     http.Body (InvalidPrice (price_of req))
       = "invalid price: " +:+ double_quoted (price_of req) +:+ LF).
Proof.
  intros Hparse. rewrite serve_create, serve_update, Hparse.
  repeat (split; [reflexivity|]).
  intros Hplain. apply (error_bodies _ Hplain).
Qed.

Lemma invalid_price_rejected_witness :
  let req := request [("item", "boots"); ("price", "forty")] in
  serve (@create latin1_tables) main_db req
    = Some (main_db, @InvalidPrice latin1_tables "forty") /\
  serve (@update latin1_tables) main_db req
    = Some (main_db, @InvalidPrice latin1_tables "forty") /\
  http.Code (@InvalidPrice latin1_tables "forty") = 400 /\
  (plain "forty" ->
     http.Body (@InvalidPrice latin1_tables "forty")
       = "invalid price: " +:+ double_quoted "forty" +:+ LF).
Proof.
  intros req.
  apply (@invalid_price_rejected latin1_tables (items main_db) req
           (S754_zero false) strconv.ErrSyntax).
  reflexivity.
Defined.

(** * Update *)

(** C4. With a price text that [ParseFloat] accepts, [update] on a name
    that is not in the store answers 404 with the line
    [no such item: <quoted item>] and leaves the store as it was; on a
    name that is in the store it succeeds and replaces the stored price
    by the parsed one. *)
Theorem update_absent_present `{UnicodeTables}
  (m : gmap string dollars) (req : http.Request) (d : dollars) :
  strconv.ParseFloat (price_of req) = (d, None) ->
  (m !! item_of req = None ->
     serve update (idle m) req = Some (idle m, NotFound (item_of req)) /\
     http.Code (NotFound (item_of req)) = http.StatusNotFound /\
     (plain (item_of req) ->
        http.Body (NotFound (item_of req))
          = "no such item: " +:+ double_quoted (item_of req) +:+ LF)) /\
  (forall old, m !! item_of req = Some old ->
     serve update (idle m) req
       = Some (idle (<[item_of req := d]> m), Updated (item_of req) d) /\
     <[item_of req := d]> m !! item_of req = Some d /\
     http.Code (Updated (item_of req) d) = http.StatusOK).
Proof.
  intros Hparse. split.
  - intros Habsent. rewrite serve_update, Hparse, Habsent.
    split; [reflexivity|]. split; [reflexivity|].
    intros Hplain. apply (error_bodies _ Hplain).
  - intros old Hold. rewrite serve_update, Hparse, Hold, lookup_insert_eq. auto.
Qed.

Lemma update_absent_present_witness :
  serve (@update latin1_tables) main_db (request [("item", "boots"); ("price", "45")])
    = Some (main_db, @NotFound latin1_tables "boots") /\
  serve (@update latin1_tables) main_db (request [("item", "shoes"); ("price", "45")])
    = Some (idle (<["shoes" := float32.of_Z 45]> (items main_db)),
            Updated "shoes" (float32.of_Z 45)).
Proof.
  split.
  - apply (proj1 (@update_absent_present latin1_tables (items main_db)
             (request [("item", "boots"); ("price", "45")]) (float32.of_Z 45) eq_refl)).
    reflexivity.
  - apply (proj2 (@update_absent_present latin1_tables (items main_db)
             (request [("item", "shoes"); ("price", "45")]) (float32.of_Z 45) eq_refl)
             (float32.of_Z 50)).
    reflexivity.
Defined.

(** * Delete *)

(** C5. [delete] on a name that is not in the store answers 404 with the
    line [no such item: <quoted item>] and leaves the store as it was; on
    a name that is in the store it removes that entry, and no other, and
    answers 200 with the line [deleted <item>]. *)
Theorem delete_absent_present `{UnicodeTables}
  (m : gmap string dollars) (req : http.Request) :
  (m !! item_of req = None ->
     serve delete (idle m) req = Some (idle m, NotFound (item_of req)) /\
     http.Code (NotFound (item_of req)) = http.StatusNotFound /\
     (plain (item_of req) ->
        http.Body (NotFound (item_of req))
          = "no such item: " +:+ double_quoted (item_of req) +:+ LF)) /\
  (forall old, m !! item_of req = Some old ->
     serve delete (idle m) req
       = Some (idle (base.delete (item_of req) m), Deleted (item_of req)) /\
     base.delete (item_of req) m !! item_of req = None /\
     (forall k, k <> item_of req -> base.delete (item_of req) m !! k = m !! k) /\
     http.Code (Deleted (item_of req)) = http.StatusOK /\
     http.Body (Deleted (item_of req)) = "deleted " +:+ item_of req +:+ LF).
Proof.
  split.
  - intros Habsent. rewrite serve_delete, Habsent.
    split; [reflexivity|]. split; [reflexivity|].
    intros Hplain. apply (error_bodies _ Hplain).
  - intros old Hold. rewrite serve_delete, Hold, lookup_delete_eq.
    repeat split; auto.
    intros k Hk. apply lookup_delete_ne. congruence.
Qed.

(** * Frame *)

(** C8. [create], [update] and [delete] always return, and whatever they
    answer, every entry whose name differs from the request's item is
    after the request what it was before. *)
Theorem mutation_frame `{UnicodeTables}
  (m : gmap string dollars) (req : http.Request) :
  (exists m' w, serve create (idle m) req = Some (idle m', w) /\
     forall k, k <> item_of req -> m' !! k = m !! k) /\
  (exists m' w, serve update (idle m) req = Some (idle m', w) /\
     forall k, k <> item_of req -> m' !! k = m !! k) /\
  (exists m' w, serve delete (idle m) req = Some (idle m', w) /\
     forall k, k <> item_of req -> m' !! k = m !! k).
Proof.
  rewrite serve_create, serve_update, serve_delete.
  destruct (strconv.ParseFloat _) as [d [e|]];
    destruct (m !! item_of req);
    repeat split; do 2 eexists; (split; [reflexivity|]);
    intros k Hk;
    rewrite ?lookup_insert_ne, ?lookup_delete_ne by congruence; reflexivity.
Qed.

(** * Requests without an item parameter *)

(** C9, as the code has it. A request without an [item] parameter names
    the empty string. While the store has no entry of that name, [price]
    and [delete] answer [NotFound] for the empty name; [update] does so
    when its price text parses, and [create] with a price text that
    parses succeeds and stores the price under the empty name. *)
Theorem missing_item_is_empty_name `{UnicodeTables}
  (m : gmap string dollars) (req : http.Request) :
  http.Query req !! "item" = None ->
  item_of req = "" /\
  (m !! "" = None ->
     serve price (idle m) req = Some (idle m, NotFound "") /\
     serve delete (idle m) req = Some (idle m, NotFound "") /\
     forall d, strconv.ParseFloat (price_of req) = (d, None) ->
       serve update (idle m) req = Some (idle m, NotFound "") /\
       serve create (idle m) req = Some (idle (<["" := d]> m), Created "" d) /\
       <["" := d]> m !! "" = Some d).
Proof.
  intros Hmissing.
  assert (item_of req = "") as Hitem.
  { unfold item_of, url.Get. rewrite Hmissing. reflexivity. }
  split; [exact Hitem|]. intros Habsent.
  rewrite serve_price, serve_delete, Hitem, Habsent.
  split; [reflexivity|]. split; [reflexivity|].
  intros d Hparse.
  rewrite serve_update, serve_create, Hparse, Hitem, Habsent, lookup_insert_eq.
  auto.
Qed.

Lemma missing_item_is_empty_name_witness :
  let req := request [("price", "3")] in
  item_of req = "" /\
  (items main_db !! "" = None ->
     serve (@price latin1_tables) main_db req
       = Some (main_db, @NotFound latin1_tables "") /\
     serve (@delete latin1_tables) main_db req
       = Some (main_db, @NotFound latin1_tables "") /\
     forall d, strconv.ParseFloat (price_of req) = (d, None) ->
       serve (@update latin1_tables) main_db req
         = Some (main_db, @NotFound latin1_tables "") /\
       serve (@create latin1_tables) main_db req
         = Some (idle (<["" := d]> (items main_db)), Created "" d) /\
       <["" := d]> (items main_db) !! "" = Some d).
Proof.
  intros req.
  apply (@missing_item_is_empty_name latin1_tables (items main_db) req).
  reflexivity.
Defined.

(** C9 as stated fails. An [update] request with neither parameter is
    answered [InvalidPrice], not [NotFound], although the store has no
    entry for the empty name; and a [create] without an item parameter
    that follows another one is answered [AlreadyExists] although its
    price parses. *)
Lemma update_without_parameters_is_invalid_price :
  http.Query (request []) !! "item" = None /\
  items main_db !! "" = None /\
  (forall T : UnicodeTables,
     serve (@update T) main_db (request [])
       = Some (main_db, @InvalidPrice T "") /\
     http.Code (@InvalidPrice T "") = 400 /\
     http.Code (@NotFound T "") = 404) /\
  (forall T : UnicodeTables,
     exists db1,
       serve (@create T) main_db (request [("price", "3")])
         = Some (db1, Created "" (float32.of_Z 3)) /\
       http.Query (request [("price", "4")]) !! "item" = None /\
       strconv.ParseFloat (price_of (request [("price", "4")]))
         = (float32.of_Z 4, None) /\
       serve (@create T) db1 (request [("price", "4")])
         = Some (db1, @AlreadyExists T "")).
Proof.
  split; [reflexivity|]. split; [reflexivity|]. split.
  - intros T. split; [|split; reflexivity].
    change main_db with (idle (items main_db)).
    rewrite serve_update. reflexivity.
  - intros T. eexists. split; [|split; [reflexivity|split; [reflexivity|]]].
    + change main_db with (idle (items main_db)).
      rewrite serve_create. reflexivity.
    + rewrite serve_create. reflexivity.
Qed.

(** * The display form of a price *)

Section Display.

Lemma digit_char_not_punct (c : ascii) :
  is_digit_char c = true ->
  (c =? "-")%char = false /\ (c =? "+")%char = false /\
  (c =? "I")%char = false /\ (c =? "N")%char = false /\
  (c =? ".")%char = false.
Proof.
  destruct c as [[] [] [] [] [] [] [] []]; vm_compute; intuition congruence.
Qed.

Lemma all_digits_uint (d : Decimal.uint) :
  all_digits (NilEmpty.string_of_uint d) = true.
Proof. induction d; cbn; auto. Qed.

(** [decimal n] is a non-empty string of digits. *)
Lemma decimal_digits (n : Z) :
  exists c s, strconv.decimal n = String c s /\
              is_digit_char c = true /\ all_digits s = true.
Proof.
  unfold strconv.decimal, NilZero.string_of_uint.
  pose proof (all_digits_uint (N.to_uint (Z.to_N n))) as Hd.
  destruct (N.to_uint (Z.to_N n)); cbn in Hd |- *;
    do 2 eexists; (split; [reflexivity|split; [reflexivity|exact Hd]]).
Qed.

Lemma decimal_one_digit (n : Z) :
  0 <= n < 10 ->
  exists c, strconv.decimal n = String c EmptyString /\ is_digit_char c = true.
Proof.
  intros Hn. replace n with (Z.of_nat (Z.to_nat n)) by lia.
  assert (Z.to_nat n < 10)%nat as Hk by lia.
  destruct (Z.to_nat n) as [|[|[|[|[|[|[|[|[|[|k]]]]]]]]]];
    try lia; eexists; split; reflexivity.
Qed.

Lemma digits_point_two_app (ds rest : string) (seen : bool) :
  all_digits ds = true ->
  digits_point_two (ds +:+ rest) seen
    = digits_point_two rest (seen || negb (ds =? "")%string).
Proof.
  revert seen. induction ds as [|c ds IH]; intros seen Hds.
  - rewrite append_nil. cbn. rewrite orb_false_r. reflexivity.
  - cbn [all_digits] in Hds. apply andb_true_iff in Hds as [Hc Hds].
    rewrite append_cons. cbn [digits_point_two].
    rewrite Hc, IH by exact Hds. cbn. rewrite orb_true_r. reflexivity.
Qed.

(** Fixed notation with two fraction digits: digits, a point, two
    digits. *)
Lemma fixed2_shape (q : Z) :
  0 <= q ->
  exists c s, strconv.fixed2 q = String c s /\ is_digit_char c = true /\
              digits_point_two (String c s) false = true.
Proof.
  intros Hq. unfold strconv.fixed2.
  destruct (decimal_digits (q / 100)) as (c & s & -> & Hc & Hs).
  destruct (decimal_one_digit (q mod 100 / 10)) as (d1 & -> & Hd1).
  { pose proof (Z.mod_pos_bound q 100 ltac:(lia)).
    split; [apply Z.div_pos; lia|apply Z.div_lt_upper_bound; lia]. }
  destruct (decimal_one_digit (q mod 10)) as (d2 & -> & Hd2).
  { apply Z.mod_pos_bound. lia. }
  exists c, (s +:+ "." +:+ String d1 (String d2 EmptyString)).
  split; [reflexivity|]. split; [exact Hc|].
  cbn [digits_point_two].
  rewrite Hc, digits_point_two_app by exact Hs.
  rewrite append_cons, append_nil. cbn [digits_point_two orb].
  rewrite Hd1, Hd2. reflexivity.
Qed.

Lemma round_half_even_nonneg (num den : Z) :
  0 <= num -> 0 < den -> 0 <= strconv.round_half_even num den.
Proof.
  intros Hnum Hden. unfold strconv.round_half_even.
  pose proof (Z.div_pos num den Hnum Hden).
  destruct (_ ?= _); [destruct (Z.even _)| |]; lia.
Qed.

Lemma hundredths_nonneg (m : positive) (e : Z) :
  0 <= strconv.hundredths (Z.pos m) e.
Proof.
  unfold strconv.hundredths. destruct (0 <=? e) eqn:He.
  - apply Z.leb_le in He. pose proof (Z.pow_nonneg 2 e). nia.
  - apply round_half_even_nonneg; [lia|].
    apply Z.pow_pos_nonneg; lia.
Qed.

(** [%.2f] prints a finite number as [fixed2] of its hundredths, with a
    minus sign when its sign bit is set. *)
Lemma fmtFloat_finite (d : dollars) :
  float32.is_finite d = true ->
  exists (neg : bool) c s,
    fmt.fmtFloat d = (if neg then "-" else "") +:+ String c s /\
    is_digit_char c = true /\
    digits_point_two (String c s) false = true.
Proof.
  intros Hfin.
  assert (exists (neg : bool) q, 0 <= q /\
            strconv.FormatFloat d = (if neg then "-" else "") +:+ strconv.fixed2 q)
    as (neg & q & Hq & Hfmt).
  { destruct d as [s| | |s m e]; try discriminate Hfin; cbn.
    - exists s, 0. split; [lia|reflexivity].
    - exists s, (strconv.hundredths (Z.pos m) e).
      split; [apply hundredths_nonneg|reflexivity]. }
  destruct (fixed2_shape q Hq) as (c & s & Hshape & Hc & Hdp).
  exists neg, c, s. split; [|split; assumption].
  unfold fmt.fmtFloat. rewrite Hfmt, Hshape.
  destruct (digit_char_not_punct c Hc) as (Hm & Hp & HI & HN & _).
  destruct neg; rewrite ?append_cons, ?append_nil; cbn.
  - rewrite HI, HN. reflexivity.
  - rewrite Hm, Hp. cbn. rewrite HI, HN. reflexivity.
Qed.

Lemma canonical_finite (d : dollars) :
  float32.is_finite d = true -> canonical (String_ d) = true.
Proof.
  intros Hfin.
  destruct (fmtFloat_finite d Hfin) as (neg & c & s & Hfmt & Hc & Hdp).
  unfold String_. rewrite Hfmt.
  destruct (digit_char_not_punct c Hc) as (Hm & _).
  destruct neg; rewrite ?append_cons, ?append_nil; cbn [canonical].
  - exact Hdp.
  - rewrite Hm. exact Hdp.
Qed.

(** [fmt.fmtFloat] prints a finite number as [FormatFloat] does. *)
Lemma fmtFloat_finite_text (d : dollars) :
  float32.is_finite d = true -> fmt.fmtFloat d = strconv.FormatFloat d.
Proof.
  intros Hfin.
  assert (exists (neg : bool) q, 0 <= q /\
            strconv.FormatFloat d = (if neg then "-" else "") +:+ strconv.fixed2 q)
    as (neg & q & Hq & Hfmt).
  { destruct d as [s| | |s m e]; try discriminate Hfin; cbn.
    - exists s, 0. split; [lia|reflexivity].
    - exists s, (strconv.hundredths (Z.pos m) e).
      split; [apply hundredths_nonneg|reflexivity]. }
  destruct (fixed2_shape q Hq) as (c & s & Hshape & Hc & Hdp).
  unfold fmt.fmtFloat. rewrite Hfmt, Hshape.
  destruct (digit_char_not_punct c Hc) as (Hm & Hp & HI & HN & _).
  destruct neg; rewrite ?append_cons, ?append_nil; cbn.
  - rewrite HI, HN. reflexivity.
  - rewrite Hm, Hp. cbn. rewrite HI, HN. reflexivity.
Qed.

(** The rounding of [FormatFloat] is the rounding to the nearest
    hundredth, ties to even. *)
Lemma hundredths_nearest (m : positive) (e : Z) :
  nearest_hundredths (Z.pos m) e (strconv.hundredths (Z.pos m) e).
Proof.
  unfold nearest_hundredths, strconv.hundredths.
  destruct (0 <=? e) eqn:He; [reflexivity|].
  assert (0 < 2 ^ (- e)) as HD by (apply Z.pow_pos_nonneg; lia).
  set (D := 2 ^ (- e)) in *. set (N := 100 * Z.pos m).
  unfold strconv.round_half_even.
  pose proof (Z.div_mod N D ltac:(lia)) as Hdm.
  pose proof (Z.mod_pos_bound N D HD) as Hr.
  set (k := N / D) in *. set (r := N mod D) in *.
  destruct (Z.compare_spec (2 * r) D) as [Heq|Hlt|Hgt].
  - destruct (Z.even k) eqn:Hk.
    + split; [|intros _; exact Hk].
      replace (k * D - N) with (- r) by lia. lia.
    + split.
      * replace ((k + 1) * D - N) with (D - r) by lia. lia.
      * intros _. rewrite Z.even_add, Hk. reflexivity.
  - split.
    + replace (k * D - N) with (- r) by lia. lia.
    + replace (k * D - N) with (- r) by lia. lia.
  - split.
    + replace ((k + 1) * D - N) with (D - r) by lia. lia.
    + replace ((k + 1) * D - N) with (D - r) by lia. lia.
Qed.

(** The nearest hundredth, the even one at a tie, is one number. *)
Lemma nearest_hundredths_unique (m e q1 q2 : Z) :
  nearest_hundredths m e q1 -> nearest_hundredths m e q2 -> q1 = q2.
Proof.
  unfold nearest_hundredths. destruct (0 <=? e) eqn:He; [congruence|].
  assert (0 < 2 ^ (- e)) as HD by (apply Z.pow_pos_nonneg; lia).
  set (D := 2 ^ (- e)) in *. set (N := 100 * m).
  intros [H1 E1] [H2 E2].
  destruct (Z.eq_dec q1 q2) as [|Hne]; [assumption|exfalso].
  assert (q1 = q2 + 1 \/ q2 = q1 + 1) as Hadj by nia.
  assert (2 * Z.abs (q1 * D - N) = D /\ 2 * Z.abs (q2 * D - N) = D) as [T1 T2] by nia.
  specialize (E1 T1). specialize (E2 T2).
  destruct Hadj as [->| ->].
  - rewrite Z.even_add, E2 in E1. discriminate E1.
  - rewrite Z.even_add, E1 in E2. discriminate E2.
Qed.

(** What a finite price is displayed as: its sign, and its magnitude
    rounded to hundredths. *)
Lemma String_finite (d : dollars) :
  float32.is_finite d = true ->
  exists q, 0 <= q /\ shows_hundredths d q /\ String_ d = dollar_text (sign_bit d) q.
Proof.
  intros Hfin. unfold String_. rewrite (fmtFloat_finite_text d Hfin).
  destruct d as [s| | |s m e]; try discriminate Hfin.
  - exists 0. split; [lia|]. split; reflexivity.
  - exists (strconv.hundredths (Z.pos m) e).
    split; [apply hundredths_nonneg|]. split; [apply hundredths_nearest|reflexivity].
Qed.

(** The numeral of a number denotes that number, and the numeral of a
    number below ten is one digit. *)
Lemma numeral_value_decimal (k : Z) :
  0 <= k -> numeral_value (strconv.decimal k) = Some k.
Proof.
  intros Hk. unfold numeral_value, strconv.decimal.
  rewrite NilZero.usu.
  - rewrite DecimalN.Unsigned.of_to. f_equal. lia.
  - destruct (Z.to_N k) as [|p]; [discriminate|].
    apply DecimalPos.Unsigned.to_uint_nonnil.
Qed.

Lemma decimal_digit_length (k : Z) :
  0 <= k < 10 -> String.length (strconv.decimal k) = 1%nat.
Proof.
  intros Hk. destruct (decimal_one_digit k Hk) as (c & -> & _). reflexivity.
Qed.

End Display.

(** C6, as the code has it. A stored price that is a finite number is
    displayed as a dollar sign, a minus sign when the sign bit of the
    number is set (negative numbers and the negative zero), and the
    magnitude of the number rounded to the nearest hundredth, the even
    one at a tie, in fixed notation with exactly two fraction digits:
    the numeral of the whole part, a point, the digit of the tenths and
    the digit of the hundredths. The prices that are not numbers are
    displayed as [$NaN], [$+Inf] and [$-Inf]. In particular creating
    [widget] with the price text [9.5] and reading it back shows
    [$9.50]; [-5] is shown as [$-5.00], [0.999] as [$1.00], [0.125] as
    [$0.12] and [-0] as [$-0.00]. *)
Theorem display_two_fraction_digits `{UnicodeTables} :
  (forall (m : gmap string dollars) (req : http.Request) (d : dollars),
     m !! item_of req = Some d ->
     float32.is_finite d = true ->
     serve price (idle m) req = Some (idle m, Price d) /\
     http.Body (Price d) = String_ d +:+ LF /\
     canonical (String_ d) = true /\
     exists q,
       0 <= q /\
       shows_hundredths d q /\
       (forall q', shows_hundredths d q' -> q' = q) /\
       String_ d = dollar_text (sign_bit d) q) /\
  (forall k, 0 <= k -> numeral_value (strconv.decimal k) = Some k) /\
  (forall k, 0 <= k < 10 -> String.length (strconv.decimal k) = 1%nat) /\
  (String_ S754_nan = "$NaN" /\
   String_ (S754_infinity false) = "$+Inf" /\
   String_ (S754_infinity true) = "$-Inf") /\
  (forall m : gmap string dollars,
     m !! "widget" = None ->
     exists db' d,
       serve create (idle m) (request [("item", "widget"); ("price", "9.5")])
         = Some (db', Created "widget" d) /\
       serve price db' (request [("item", "widget")]) = Some (db', Price d) /\
       String_ d = "$9.50") /\
  ((exists d, strconv.ParseFloat "-5" = (d, None) /\
              sign_bit d = true /\ shows_hundredths d 500 /\ String_ d = "$-5.00") /\
   (exists d, strconv.ParseFloat "0.999" = (d, None) /\
              sign_bit d = false /\ shows_hundredths d 100 /\ String_ d = "$1.00") /\
   (exists d, strconv.ParseFloat "0.125" = (d, None) /\
              sign_bit d = false /\ shows_hundredths d 12 /\ String_ d = "$0.12") /\
   (exists d, strconv.ParseFloat "-0" = (d, None) /\
              sign_bit d = true /\ shows_hundredths d 0 /\ String_ d = "$-0.00")).
Proof.
  split; [|split; [|split; [|split; [|split]]]].
  - intros m req d Hstored Hfin. rewrite serve_price, Hstored.
    split; [reflexivity|]. split; [reflexivity|].
    split; [apply canonical_finite, Hfin|].
    destruct (String_finite d Hfin) as (q & Hq & Hshows & Htext).
    exists q. split; [exact Hq|]. split; [exact Hshows|]. split; [|exact Htext].
    intros q' Hq'. destruct d as [s| | |s mm e]; try discriminate Hfin.
    + cbn in Hq', Hshows. congruence.
    + apply (nearest_hundredths_unique (Z.pos mm) e); assumption.
  - exact numeral_value_decimal.
  - exact decimal_digit_length.
  - repeat split; reflexivity.
  - intros m Hfresh.
    exists (idle (<["widget" := S754_finite false 9961472 (-20)]> m)),
           (S754_finite false 9961472 (-20)).
    rewrite serve_create, serve_price.
    change (item_of (request [("item", "widget"); ("price", "9.5")])) with "widget".
    change (item_of (request [("item", "widget")])) with "widget".
    rewrite Hfresh, lookup_insert_eq.
    repeat split; reflexivity.
  - assert (forall (s : string) (d : dollars) (q : Z) (t : string),
              strconv.ParseFloat s = (d, None) ->
              strconv.hundredths
                (match d with S754_finite _ mm _ => Z.pos mm | _ => 0 end)
                (match d with S754_finite _ _ e => e | _ => 0 end) = q ->
              float32.is_finite d = true ->
              String_ d = t ->
              exists d', strconv.ParseFloat s = (d', None) /\
                         sign_bit d' = sign_bit d /\ shows_hundredths d' q /\
                         String_ d' = t) as Hex.
    { intros s d q t Hparse Hq Hfin Ht. exists d.
      split; [exact Hparse|]. split; [reflexivity|]. split; [|exact Ht].
      destruct d as [sg| | |sg mm e]; try discriminate Hfin.
      - cbn in Hq |- *. symmetry. exact Hq.
      - cbn [shows_hundredths]. rewrite <- Hq. apply hundredths_nearest. }
    split; [|split; [|split]].
    + apply (Hex "-5" (S754_finite true 10485760 (-21))); reflexivity.
    + apply (Hex "0.999" (S754_finite false 16760439 (-24))); reflexivity.
    + apply (Hex "0.125" (S754_finite false 8388608 (-26))); reflexivity.
    + apply (Hex "-0" (S754_zero true)); reflexivity.
Qed.

(** C6 as stated fails: [NaN] is a price text that [ParseFloat] accepts,
    [create] stores it, and it is displayed as [$NaN], which has no
    fraction digits. *)
Lemma stored_NaN_is_displayed_as_NaN :
  (forall T : UnicodeTables,
     exists db',
       serve (@create T) main_db (request [("item", "widget"); ("price", "NaN")])
         = Some (db', Created "widget" S754_nan) /\
       items db' !! "widget" = Some S754_nan /\
       serve (@price T) db' (request [("item", "widget")])
         = Some (db', Price S754_nan)) /\
  http.Body (Price S754_nan) = "$NaN" +:+ LF /\
  canonical (String_ S754_nan) = false.
Proof.
  split; [|split; reflexivity].
  intros T.
  exists (idle (<["widget" := S754_nan]> (items main_db))).
  change main_db with (idle (items main_db)).
  rewrite serve_create, serve_price.
  repeat split; reflexivity.
Qed.

(** * Which price texts are accepted *)

Section ParseFloatSign.
Import strconv.

Lemma bytes_cons (c : ascii) (s : string) :
  bytes (String c s) = byte_code c :: bytes s.
Proof. reflexivity. Qed.

Lemma starts_unsigned_head (b : list Z) :
  starts_unsigned b = true ->
  exists c b', b = c :: b' /\ (48 <= c <= 57 \/ c = 46).
Proof.
  destruct b as [|c b']; [discriminate|]. unfold starts_unsigned, is_digit.
  change (byte_code "0") with 48. change (byte_code "9") with 57.
  change (byte_code ".") with 46.
  intros Hc. exists c, b'. split; [reflexivity|]. lia.
Qed.

Lemma special_unsigned (b : list Z) :
  starts_unsigned b = true ->
  special b = None /\ special (#"-" :: b) = None.
Proof.
  intros Hb. destruct (starts_unsigned_head b Hb) as (c & b' & -> & Hc).
  split.
  - unfold special.
    change (byte_code "+") with 43. change (byte_code "-") with 45.
    change (byte_code "i") with 105. change (byte_code "I") with 73.
    change (byte_code "n") with 110. change (byte_code "N") with 78.
    replace (c =? 43) with false by lia. replace (c =? 45) with false by lia.
    replace (c =? 105) with false by lia. replace (c =? 73) with false by lia.
    replace (c =? 110) with false by lia. replace (c =? 78) with false by lia.
    reflexivity.
  - unfold special, inf_prefix.
    change (bytes "infinity") with [105; 110; 102; 105; 110; 105; 116; 121].
    cbn [commonPrefixLenIgnoreCase].
    change (byte_code "+") with 43. change (byte_code "-") with 45.
    change (byte_code "A") with 65. change (byte_code "Z") with 90.
    change (byte_code "a") with 97.
    replace ((65 <=? c) && (c <=? 90)) with false by lia.
    replace (c =? 105) with false by lia.
    reflexivity.
Qed.











End ParseFloatSign.

(** * Literals out of the binary32 range *)

Section Overflow.

Lemma iter_pos_nat {A : Type} (f : A -> A) (p : positive) (x : A) :
  SpecFloat.iter_pos f p x = Nat.iter (Pos.to_nat p) f x.
Proof.
  revert x. induction p as [p IH|p IH|]; intros x; cbn [SpecFloat.iter_pos].
  - rewrite !IH, Pos2Nat.inj_xI. rewrite <- Nat.iter_add, <- Nat.iter_succ_r.
    f_equal. lia.
  - rewrite !IH, Pos2Nat.inj_xO. rewrite <- Nat.iter_add. f_equal. lia.
  - reflexivity.
Qed.

Lemma shr_1_spec (mrs : shr_record) :
  0 <= shr_m mrs ->
  shr_m (shr_1 mrs) = shr_m mrs / 2 /\ shr_r (shr_1 mrs) = Z.odd (shr_m mrs).
Proof.
  destruct mrs as [mm r s]. cbn [shr_m]. intros Hm.
  destruct mm as [|[p|p|]|p]; try lia; cbn [shr_1 shr_m shr_r].
  - split; reflexivity.
  - split; [|reflexivity]. rewrite Pos2Z.inj_xI.
    apply (Z.div_unique _ _ _ 1); lia.
  - split; [|reflexivity]. rewrite Pos2Z.inj_xO.
    apply (Z.div_unique _ _ _ 0); lia.
  - split; reflexivity.
Qed.

Lemma iter_shr_1_spec (k : nat) (mrs : shr_record) :
  0 <= shr_m mrs ->
  shr_m (Nat.iter k shr_1 mrs) = shr_m mrs / 2 ^ Z.of_nat k /\
  (forall k', k = S k' ->
     shr_r (Nat.iter k shr_1 mrs) = Z.testbit (shr_m mrs) (Z.of_nat k')).
Proof.
  intros Hm. induction k as [|k [IHm IHr]].
  - split; [cbn; rewrite Z.div_1_r; reflexivity|discriminate].
  - change (Nat.iter (S k) shr_1 mrs) with (shr_1 (Nat.iter k shr_1 mrs)).
    assert (0 <= shr_m (Nat.iter k shr_1 mrs)) as Hk.
    { rewrite IHm. apply Z.div_pos; [exact Hm|]. apply Z.pow_pos_nonneg; lia. }
    destruct (shr_1_spec _ Hk) as [H1 H2]. split.
    + rewrite H1, IHm, Z.div_div by (try apply Z.pow_pos_nonneg; lia).
      rewrite Nat2Z.inj_succ, Z.pow_succ_r by lia. f_equal. lia.
    + intros k' [= <-]. rewrite H2, IHm, Z.testbit_odd, Z.shiftr_div_pow2 by lia.
      reflexivity.
Qed.


Lemma digits2_pos_bounds (p : positive) :
  2 ^ (Z.pos (digits2_pos p) - 1) <= Z.pos p < 2 ^ Z.pos (digits2_pos p).
Proof.
  induction p as [p IH|p IH|]; cbn [digits2_pos].
  - rewrite Pos2Z.inj_succ.
    replace (Z.succ (Z.pos (digits2_pos p)) - 1) with (Z.succ (Z.pos (digits2_pos p) - 1)) by lia.
    rewrite !Z.pow_succ_r by lia.
    set (a := 2 ^ (Z.pos (digits2_pos p) - 1)) in *.
    set (b := 2 ^ Z.pos (digits2_pos p)) in *. lia.
  - rewrite Pos2Z.inj_succ.
    replace (Z.succ (Z.pos (digits2_pos p)) - 1) with (Z.succ (Z.pos (digits2_pos p) - 1)) by lia.
    rewrite !Z.pow_succ_r by lia.
    set (a := 2 ^ (Z.pos (digits2_pos p) - 1)) in *.
    set (b := 2 ^ Z.pos (digits2_pos p)) in *. lia.
  - cbn. lia.
Qed.

Lemma Zdigits2_bounds (m : Z) :
  0 < m -> 2 ^ (Zdigits2 m - 1) <= m < 2 ^ Zdigits2 m /\ 0 < Zdigits2 m.
Proof.
  destruct m as [|p|p]; try lia. intros _. cbn [Zdigits2].
  split; [apply digits2_pos_bounds|lia].
Qed.

Lemma Zdigits2_unique (m d : Z) :
  2 ^ (d - 1) <= m < 2 ^ d -> 0 < d -> Zdigits2 m = d.
Proof.
  intros [Hlo Hhi] Hd.
  assert (0 < m) as Hm.
  { pose proof (Z.pow_pos_nonneg 2 (d - 1)). lia. }
  destruct (Zdigits2_bounds m Hm) as [[Hlo' Hhi'] Hd'].
  destruct (Z.lt_trichotomy (Zdigits2 m) d) as [Hlt | [Heq | Hgt]]; [|exact Heq|].
  - assert (2 ^ Zdigits2 m <= 2 ^ (d - 1)) by (apply Z.pow_le_mono_r; lia). lia.
  - assert (2 ^ d <= 2 ^ (Zdigits2 m - 1)) by (apply Z.pow_le_mono_r; lia). lia.
Qed.

Lemma shr_m_of_loc (m : Z) (l : location) : shr_m (shr_record_of_loc m l) = m.
Proof. destruct l as [|[]]; reflexivity. Qed.

(** Rounding a mantissa of [d >= 24] digits in the normal range: the
    shift drops the [d - 24] low digits. *)
Lemma shr_fexp_normal (m e : Z) (l : location) :
  0 < m -> 24 <= Zdigits2 m -> -149 <= Zdigits2 m + e - 24 ->
  exists mrs,
    shr_fexp float32.prec float32.emax m e l = (mrs, e + (Zdigits2 m - 24)) /\
    shr_m mrs = m / 2 ^ (Zdigits2 m - 24) /\
    (24 < Zdigits2 m -> shr_r mrs = Z.testbit m (Zdigits2 m - 25)).
Proof.
  intros Hm Hd He. unfold shr_fexp, fexp, emin, float32.prec, float32.emax.
  replace (Z.max (Zdigits2 m + e - 24) (3 - 128 - 24) - e) with (Zdigits2 m - 24) by lia.
  unfold shr. destruct (Zdigits2 m - 24) as [|p|p] eqn:Hn; try lia.
  - eexists. split; [rewrite Z.add_0_r; reflexivity|].
    rewrite shr_m_of_loc, Z.div_1_r. split; [reflexivity|lia].
  - eexists. split; [reflexivity|]. rewrite iter_pos_nat.
    destruct (iter_shr_1_spec (Pos.to_nat p) (shr_record_of_loc m l)) as [H1 H2].
    { rewrite shr_m_of_loc. lia. }
    rewrite shr_m_of_loc in H1, H2. rewrite positive_nat_Z in H1.
    split; [exact H1|]. intros _.
    destruct (Pos.to_nat p) as [|k'] eqn:Hk; [lia|].
    rewrite (H2 k' eq_refl). f_equal. lia.
Qed.













End Overflow.


(** * Concurrent creates of one name *)

Section Steps.

Lemma run_step1 (p p' : prog) (db db' : database) (w w' : http.ResponseWriter) :
  step1 p db w = Some (p', db', w') -> run p db w = run p' db' w'.
Proof.
  destruct p as [|o k]; cbn; [discriminate|].
  destruct (do_op o db w) as [[[r db1] w1]|]; [|discriminate].
  intros [= <- <- <-]. reflexivity.
Qed.

Lemma step1_Return (db : database) (w : http.ResponseWriter) :
  step1 Return db w = None.
Proof. reflexivity. Qed.

Lemma in_critical_section_not_Return (p : prog) :
  in_critical_section p -> is_Return p = false.
Proof. intros []; reflexivity. Qed.

(** A handler in its critical section can always take a step: it either
    unlocks and returns, or stays in the critical section and keeps the
    lock. *)
Lemma in_critical_section_step (p : prog) (m : gmap string dollars)
  (w : http.ResponseWriter) :
  in_critical_section p ->
  exists p' db' w',
    step1 p (held m) w = Some (p', db', w') /\
    ((p' = Return /\ db' = idle m /\ w' = w) \/
     (in_critical_section p' /\ exists m', db' = held m')).
Proof.
  intros Hcs. destruct Hcs as [|o k Ho Hk].
  - exists Return, (idle m), w. split; [reflexivity|]. left. auto.
  - destruct o; try discriminate Ho; cbn;
      do 3 eexists; (split; [reflexivity|]); right;
      (split; [apply Hk|]); eexists; reflexivity.
Qed.

(** A handler that returns when run alone can be run to its return as
    one thread among others. *)
Lemma run_steps (p : prog) :
  forall (db db' : database) (w w' : http.ResponseWriter) (ts : list thread) (i : nat),
    ts !! i = Some (p, w) ->
    run p db w = Some (db', w') ->
    steps {| shared := db; threads := ts |}
          {| shared := db'; threads := <[i := (Return, w')]> ts |}.
Proof.
  induction p as [|o k IH]; intros db db' w w' ts i Hi Hrun; cbn in Hrun.
  - injection Hrun as <- <-. rewrite list_insert_id by exact Hi. apply rtc_refl.
  - destruct (do_op o db w) as [[[r db1] w1]|] eqn:Hop; [|discriminate].
    eapply rtc_l.
    + apply (step_thread {| shared := db; threads := ts |} i (Do o k) (k r) w w1 db1).
      * exact Hi.
      * cbn. rewrite Hop. reflexivity.
    + cbn [threads].
      rewrite <- (list_insert_insert_eq ts i (Return, w') (k r, w1)).
      apply (IH r db1 db' w1 w'); [|exact Hrun].
      apply list_lookup_insert_eq. apply lookup_lt_Some in Hi. exact Hi.
Qed.

End Steps.

Section RaceEntry.
Context `{UnicodeTables}.

Lemma create_shape (req : http.Request) :
  exists p, create req = Lock p /\ in_critical_section p.
Proof.
  unfold create, defer.
  destruct (strconv.ParseFloat _) as [d [e|]].
  - eexists. split; [reflexivity|]. cbn. repeat constructor.
  - eexists. split; [reflexivity|]. cbn.
    apply cs_do; [reflexivity|]. intros [old|]; repeat constructor.
Qed.

Lemma waiting_blocked (req : http.Request) (M : gmap string dollars)
  (w : http.ResponseWriter) :
  step1 (create req) (held M) w = None.
Proof. destruct (create_shape req) as (p & -> & _). reflexivity. Qed.

Lemma waiting_locks (req : http.Request) (M : gmap string dollars)
  (w : http.ResponseWriter) :
  exists p, step1 (create req) (idle M) w = Some (p, held M, w) /\
            in_critical_section p /\
            run p (held M) w = run (create req) (idle M) w.
Proof.
  destruct (create_shape req) as (p & Hp & Hcs). exists p.
  assert (step1 (create req) (idle M) w = Some (p, held M, w)) as Hstep.
  { rewrite Hp. reflexivity. }
  split; [exact Hstep|]. split; [exact Hcs|].
  symmetry. apply run_step1, Hstep.
Qed.

End RaceEntry.

Section Race.
Context `{UnicodeTables}.
Variables (m : gmap string dollars) (n : string) (reqs : list http.Request).
Hypothesis Hfresh : m !! n = None.
Hypothesis Hreqs : creates_of n reqs.

Lemma race_req (i : nat) (req : http.Request) :
  reqs !! i = Some req ->
  item_of req = n /\ exists d, strconv.ParseFloat (price_of req) = (d, None).
Proof.
  intros Hi. unfold creates_of in Hreqs. rewrite Forall_lookup in Hreqs.
  destruct (Hreqs i req Hi) as [Hitem Hparse]. split; [exact Hitem|].
  destruct (strconv.ParseFloat _) as [d e]. cbn in Hparse. subst e. eauto.
Qed.

(** A thread that takes the lock while the threads are settled leaves
    them settled when it returns. *)
Lemma settled_lock (M : gmap string dollars) (ts : list thread) (i0 : nat)
  (p0 p0' : prog) (w0 w0' : http.ResponseWriter) (db' : database) :
  settled m n reqs M ts ->
  ts !! i0 = Some (p0, w0) ->
  step1 p0 (idle M) w0 = Some (p0', db', w0') ->
  exists M' w',
    db' = held M /\ w0' = w0 /\ in_critical_section p0' /\
    run p0' (held M) w0 = Some (idle M', w') /\
    settled m n reqs M' (<[i0 := (Return, w')]> ts).
Proof.
  intros Hset Hi0 Hstep1.
  destruct Hset as [[-> Hts] | (i & req & d & Hi & Hparse & -> & Hwin & Hlen & Hothers)].
  - rewrite Hts in Hi0. apply list_lookup_fmap_Some_1 in Hi0 as (req & Heq & Hreq).
    injection Heq as -> ->.
    destruct (race_req _ _ Hreq) as (Hitem & d & Hparse).
    destruct (waiting_locks req m http.NewRecorder) as (p & Hstep & Hcs & Hrun).
    rewrite Hstep in Hstep1. injection Hstep1 as <- <- <-.
    exists (<[n := d]> m), (Created n d).
    split; [reflexivity|]. split; [reflexivity|]. split; [exact Hcs|]. split.
    { rewrite Hrun. change (run (create req) (idle m) http.NewRecorder)
        with (serve create (idle m) req).
      rewrite serve_create, Hparse, Hitem, Hfresh. reflexivity. }
    right. exists i0, req, d.
    assert (i0 < length ts)%nat as Hlt.
    { rewrite Hts, length_fmap. eapply lookup_lt_Some, Hreq. }
    split; [exact Hreq|]. split; [exact Hparse|]. split; [reflexivity|].
    split; [apply list_lookup_insert_eq, Hlt|].
    split; [rewrite length_insert, Hts, length_fmap; reflexivity|].
    intros j req' Hne Hreq'. left.
    rewrite list_lookup_insert_ne by congruence.
    rewrite Hts, list_lookup_fmap, Hreq'. reflexivity.
  - destruct (decide (i0 = i)) as [->|Hne].
    { rewrite Hwin in Hi0. injection Hi0 as <- <-. discriminate Hstep1. }
    assert (is_Some (reqs !! i0)) as [req' Hreq'].
    { apply lookup_lt_is_Some. rewrite <- Hlen. eapply lookup_lt_Some, Hi0. }
    destruct (Hothers i0 req' Hne Hreq') as [Hw | Hr]; rewrite Hi0 in *.
    2: { injection Hr as -> ->. discriminate Hstep1. }
    injection Hw as -> ->.
    destruct (race_req _ _ Hreq') as (Hitem & d' & Hparse').
    destruct (waiting_locks req' (<[n := d]> m) http.NewRecorder)
      as (p & Hstep & Hcs & Hrun).
    rewrite Hstep in Hstep1. injection Hstep1 as <- <- <-.
    exists (<[n := d]> m), (AlreadyExists n).
    split; [reflexivity|]. split; [reflexivity|]. split; [exact Hcs|]. split.
    { rewrite Hrun. change (run (create req') (idle (<[n := d]> m)) http.NewRecorder)
        with (serve create (idle (<[n := d]> m)) req').
      rewrite serve_create, Hparse', Hitem, lookup_insert_eq. reflexivity. }
    right. exists i, req, d.
    split; [exact Hi|]. split; [exact Hparse|]. split; [reflexivity|].
    split; [rewrite list_lookup_insert_ne by congruence; exact Hwin|].
    split; [rewrite length_insert; exact Hlen|].
    intros j req'' Hj Hreq''.
    destruct (decide (j = i0)) as [->|Hj0].
    + right. apply list_lookup_insert_eq. eapply lookup_lt_Some, Hi0.
    + rewrite list_lookup_insert_ne by congruence. apply Hothers; assumption.
Qed.

(** While the threads are settled but for one thread, that thread being
    in its critical section, no other thread can take a step. *)
Lemma settled_others_blocked (M M' : gmap string dollars) (ts : list thread)
  (j i0 : nat) (p p0 p0' : prog) (w w' w0 w0' : http.ResponseWriter)
  (db' : database) :
  ts !! j = Some (p, w) ->
  settled m n reqs M' (<[j := (Return, w')]> ts) ->
  i0 <> j ->
  ts !! i0 = Some (p0, w0) ->
  step1 p0 (held M) w0 = Some (p0', db', w0') ->
  False.
Proof.
  intros Hj Hset Hne Hi0 Hstep1.
  assert (<[j := (Return, w')]> ts !! i0 = Some (p0, w0)) as Hi0'.
  { rewrite list_lookup_insert_ne by congruence. exact Hi0. }
  assert (<[j := (Return, w')]> ts !! j = Some (Return, w')) as Hj'.
  { apply list_lookup_insert_eq. eapply lookup_lt_Some, Hj. }
  destruct Hset as [[_ Hts] | (i & req & d & Hi & Hparse & _ & Hwin & Hlen & Hothers)].
  - rewrite Hts in Hj'. apply list_lookup_fmap_Some_1 in Hj' as (req & Heq & _).
    injection Heq as Heq _.
    destruct (create_shape req) as (q & Hq & _). rewrite Hq in Heq. discriminate Heq.
  - destruct (decide (i0 = i)) as [->|Hne'].
    { rewrite Hwin in Hi0'. injection Hi0' as <- <-. discriminate Hstep1. }
    assert (is_Some (reqs !! i0)) as [req' Hreq'].
    { apply lookup_lt_is_Some. rewrite <- Hlen. eapply lookup_lt_Some, Hi0'. }
    destruct (Hothers i0 req' Hne' Hreq') as [Hw | Hr]; rewrite Hi0' in *.
    + injection Hw as -> ->. rewrite waiting_blocked in Hstep1. discriminate Hstep1.
    + injection Hr as -> ->. discriminate Hstep1.
Qed.

Lemma race_inv_step (c c' : config) :
  race_inv m n reqs c -> step c c' -> race_inv m n reqs c'.
Proof.
  intros Hinv Hstep.
  destruct Hstep as [c i0 p0 p0' w0 w0' db' Hi0 Hstep1].
  destruct Hinv as [(M & Hshared & Hset) |
                    (M & j & p & w & M' & w' & Hshared & Hj & Hcs & Hrun & Hset)];
    rewrite Hshared in Hstep1.
  - destruct (settled_lock M _ _ _ _ _ _ _ Hset Hi0 Hstep1)
      as (M' & w' & -> & -> & Hcs & Hrun & Hset').
    right. exists M, i0, p0', w0, M', w'. cbn [shared threads].
    split; [reflexivity|].
    split; [apply list_lookup_insert_eq; eapply lookup_lt_Some, Hi0|].
    split; [exact Hcs|]. split; [exact Hrun|].
    rewrite list_insert_insert_eq. exact Hset'.
  - destruct (decide (i0 = j)) as [->|Hne].
    2: { exfalso.
         exact (settled_others_blocked M M' (threads c) j i0 p p0 p0' w w' w0 w0' db'
                  Hj Hset Hne Hi0 Hstep1). }
    rewrite Hj in Hi0. injection Hi0 as <- <-.
    destruct (in_critical_section_step p M w Hcs) as (p' & db1 & w1 & Hs & Hcases).
    rewrite Hs in Hstep1. injection Hstep1 as <- <- <-.
    rewrite (run_step1 _ _ _ _ _ _ Hs) in Hrun.
    destruct Hcases as [(-> & -> & ->) | (Hcs' & M1 & ->)].
    + left. cbn in Hrun. injection Hrun as <- <-.
      exists M. split; [reflexivity|]. exact Hset.
    + right. exists M1, j, p', w1, M', w'. cbn [shared threads].
      split; [reflexivity|].
      split; [apply list_lookup_insert_eq; eapply lookup_lt_Some, Hj|].
      split; [exact Hcs'|]. split; [exact Hrun|].
      rewrite list_insert_insert_eq. exact Hset.
Qed.

Lemma race_inv_steps (c c' : config) :
  race_inv m n reqs c -> steps c c' -> race_inv m n reqs c'.
Proof.
  intros Hinv Hsteps. induction Hsteps as [|c c1 c2 Hstep _ IH]; [exact Hinv|].
  apply IH. eapply race_inv_step; eassumption.
Qed.

Lemma race_inv_launch : race_inv m n reqs (launch create (idle m) reqs).
Proof. left. exists m. split; [reflexivity|]. left. split; reflexivity. Qed.

Lemma waiting_not_returned (req : http.Request) : is_Return (waiting req).1 = false.
Proof.
  destruct (create_shape req) as (p & Hp & _).
  unfold waiting. cbn [fst]. rewrite Hp. reflexivity.
Qed.

(** When every handler has returned, one create has succeeded and every
    other has failed with [AlreadyExists]. *)
Lemma race_inv_returned (c : config) :
  reqs <> [] ->
  race_inv m n reqs c -> returned c ->
  exists (i : nat) (req : http.Request) (d : dollars),
    reqs !! i = Some req /\
    strconv.ParseFloat (price_of req) = (d, None) /\
    shared c = idle (<[n := d]> m) /\
    responses c = (<[i := Created n d]> (replicate (length reqs) (AlreadyExists n))).
Proof.
  intros Hne Hinv Hret. unfold returned in Hret. rewrite Forall_lookup in Hret.
  destruct Hinv as [(M & Hshared & Hset) |
                    (M & j & p & w & M' & w' & Hshared & Hj & Hcs & Hrun & Hset)].
  2: { apply Hret in Hj. cbn in Hj.
       rewrite (in_critical_section_not_Return p Hcs) in Hj. discriminate Hj. }
  destruct Hset as [[_ Hts] | (i & req & d & Hi & Hparse & -> & Hwin & Hlen & Hothers)].
  { destruct reqs as [|req reqs']; [congruence|].
    specialize (Hret O (waiting req)). rewrite Hts in Hret.
    specialize (Hret eq_refl). rewrite waiting_not_returned in Hret. discriminate Hret. }
  exists i, req, d. split; [exact Hi|]. split; [exact Hparse|]. split; [exact Hshared|].
  apply list_eq. intros k. unfold responses. rewrite list_lookup_fmap.
  destruct (decide (k = i)) as [->|Hk].
  - rewrite Hwin, list_lookup_insert_eq by (rewrite length_replicate; eapply lookup_lt_Some, Hi).
    reflexivity.
  - rewrite list_lookup_insert_ne by congruence.
    destruct (reqs !! k) as [req'|] eqn:Hreq'.
    + rewrite lookup_replicate_2 by (eapply lookup_lt_Some, Hreq').
      destruct (Hothers k req' Hk Hreq') as [Hw | Hr].
      * apply Hret in Hw. rewrite waiting_not_returned in Hw. discriminate Hw.
      * rewrite Hr. reflexivity.
    + apply lookup_ge_None in Hreq'.
      rewrite (proj2 (lookup_ge_None (threads c) k)) by lia.
      symmetry. apply lookup_ge_None. rewrite length_replicate. exact Hreq'.
Qed.

(** No deadlock: while a handler has not returned, some thread can take
    a step. *)
Lemma race_inv_progress (c : config) :
  reqs <> [] ->
  race_inv m n reqs c -> returned c \/ exists c', step c c'.
Proof.
  intros Hne Hinv.
  destruct Hinv as [(M & Hshared & Hset) |
                    (M & j & p & w & M' & w' & Hshared & Hj & Hcs & Hrun & Hset)].
  2: { right. destruct (in_critical_section_step p M w Hcs) as (p' & db1 & w1 & Hs & _).
       eexists. apply (step_thread c j p p' w w1 db1 Hj). rewrite Hshared. exact Hs. }
  assert (forall k req, threads c !! k = Some (waiting req) -> exists c', step c c') as Hgo.
  { intros k req Hk.
    destruct (waiting_locks req M http.NewRecorder) as (p & Hstep & _).
    eexists.
    apply (step_thread c k (create req) p http.NewRecorder http.NewRecorder (held M) Hk).
    rewrite Hshared. exact Hstep. }
  destruct Hset as [[_ Hts] | (i & req & d & Hi & Hparse & _ & Hwin & Hlen & Hothers)].
  { right. destruct reqs as [|req reqs']; [congruence|].
    apply (Hgo O req). rewrite Hts. reflexivity. }
  destruct (decide (returned c)) as [Hret|Hret]; [left; exact Hret|right].
  apply not_Forall_Exists in Hret; [|intros t; apply _].
  apply Exists_exists in Hret as ([p w] & Hin & Hnot).
  apply list_elem_of_lookup in Hin as [k Hk].
  destruct (decide (k = i)) as [->|Hki].
  { rewrite Hwin in Hk. injection Hk as <- <-. cbn in Hnot. congruence. }
  assert (is_Some (reqs !! k)) as [req' Hreq'].
  { apply lookup_lt_is_Some. rewrite <- Hlen. eapply lookup_lt_Some, Hk. }
  destruct (Hothers k req' Hki Hreq') as [Hw | Hr].
  - apply (Hgo k req' Hw).
  - rewrite Hr in Hk. injection Hk as <- <-. cbn in Hnot. congruence.
Qed.

End Race.

Section Schedule.
Context `{UnicodeTables}.

(** Some schedule lets every create return: the one that runs the
    threads one after the other. *)
Lemma creates_can_return (reqs : list http.Request) :
  forall (done : list thread) (M : gmap string dollars),
    Forall (fun t : thread => is_Return t.1 = true) done ->
    exists c, steps {| shared := idle M; threads := done ++ (waiting <$> reqs) |} c /\
              returned c.
Proof.
  induction reqs as [|req reqs IH]; intros done M Hdone.
  - eexists. split; [apply rtc_refl|].
    unfold returned. cbn. rewrite app_nil_r. exact Hdone.
  - assert (exists M1 w1, run (create req) (idle M) http.NewRecorder = Some (idle M1, w1))
      as (M1 & w1 & Hrun).
    { change (run (create req) (idle M) http.NewRecorder)
        with (serve create (idle M) req).
      rewrite serve_create.
      destruct (strconv.ParseFloat _) as [d [e|]]; [eauto|].
      destruct (M !! item_of req); eauto. }
    destruct (IH (done ++ [(Return, w1)]) M1) as (c & Hsteps & Hret).
    { apply Forall_app. split; [exact Hdone|]. repeat constructor. }
    exists c. split; [|exact Hret].
    eapply rtc_trans; [|exact Hsteps].
    rewrite <- app_assoc. cbn [app fmap list_fmap].
    replace (done ++ (Return, w1) :: (waiting <$> reqs))
      with (<[length done := (Return, w1)]> (done ++ waiting req :: (waiting <$> reqs))).
    + apply (run_steps (create req) (idle M) (idle M1) http.NewRecorder w1).
      * apply list_lookup_middle. reflexivity.
      * exact Hrun.
    + rewrite insert_app_r_alt by lia. rewrite Nat.sub_diag. reflexivity.
Qed.

End Schedule.

Section Termination.
Context `{UnicodeTables}.

(** [create] performs at most five operations. *)
Lemma within_create (req : http.Request) : within 5 (create req).
Proof.
  unfold create, defer. destruct (strconv.ParseFloat _) as [d [e|]]; cbn.
  - repeat (constructor; intros _).
  - constructor. intros _. constructor.
    intros [old|]; repeat (constructor; intros _).
Qed.

Lemma sum_list_insert (ks : list nat) (i k k' : nat) :
  ks !! i = Some k ->
  (sum_list (<[i := k']> ks) + k = sum_list ks + k')%nat.
Proof.
  revert i. induction ks as [|k0 ks IH]; intros [|i] Hi; try discriminate Hi; cbn.
  - injection Hi as ->. lia.
  - cbn in Hi. specialize (IH i Hi).
    rewrite <- !Nat.add_assoc. f_equal. exact IH.
Qed.

(** Every step uses up one operation of the budget. *)
Lemma step_budgets (c c' : config) (ks : list nat) :
  budgets (threads c) ks -> step c c' ->
  exists ks', budgets (threads c') ks' /\ S (sum_list ks') = sum_list ks.
Proof.
  intros Hks Hstep. destruct Hstep as [c i p p' w w' db' Hi Hstep1].
  destruct (Forall2_lookup_l _ _ _ i _ Hks Hi) as (k & Hk & Hwithin).
  cbn [fst] in Hwithin.
  destruct Hwithin as [k|k o cont Hcont]; [discriminate Hstep1|].
  cbn in Hstep1. destruct (do_op o (shared c) w) as [[[r db1] w1]|]; [|discriminate].
  injection Hstep1 as <- <- <-.
  exists (<[i := k]> ks). split.
  - apply Forall2_insert; [exact Hks|apply Hcont].
  - pose proof (sum_list_insert ks i (S k) k Hk). lia.
Qed.

Lemma nsteps_budgets (n : nat) (c c' : config) :
  nsteps step n c c' ->
  forall ks, budgets (threads c) ks -> (n <= sum_list ks)%nat.
Proof.
  induction 1 as [c|n c c1 c2 Hstep _ IH]; intros ks Hks; [lia|].
  destruct (step_budgets c c1 ks Hks Hstep) as (ks' & Hks' & Hsum).
  specialize (IH ks' Hks'). lia.
Qed.

(** Every schedule of [N] creates ends after at most [5 * N] steps. *)
Lemma creates_terminate (db : database) (reqs : list http.Request)
  (n : nat) (c : config) :
  nsteps step n (launch create db reqs) c -> (n <= 5 * length reqs)%nat.
Proof.
  intros Hsteps.
  pose proof (nsteps_budgets n _ c Hsteps (replicate (length reqs) 5%nat)) as Hn.
  rewrite sum_list_replicate in Hn. rewrite Nat.mul_comm. apply Hn.
  unfold budgets, launch. cbn [threads].
  apply Forall2_fmap_l, Forall2_replicate_r; [reflexivity|].
  apply Forall_forall. intros req _. apply within_create.
Qed.

End Termination.

Section Counting.

Lemma count_code_replicate (code : Z) (k : nat) (w : http.ResponseWriter) :
  count_code code (replicate k w) = if decide (http.Code w = code) then k else O.
Proof.
  unfold count_code. induction k as [|k IH]; cbn [replicate].
  - destruct (decide _); reflexivity.
  - rewrite filter_cons. destruct (decide (http.Code w = code)); cbn [length]; lia.
Qed.

(** Among [N] responses that are all [other] but one, the one is
    counted once under its code and the rest under theirs. *)
Lemma count_code_insert (code : Z) (N i : nat) (one other : http.ResponseWriter) :
  (i < N)%nat ->
  count_code code (<[i := one]> (replicate N other))
    = ((if decide (http.Code one = code) then 1 else 0) +
       (if decide (http.Code other = code) then N - 1 else 0))%nat.
Proof.
  intros Hi.
  rewrite insert_take_drop by (rewrite length_replicate; exact Hi).
  rewrite take_replicate, drop_replicate.
  unfold count_code. rewrite filter_app, filter_cons, length_app.
  fold (count_code code (replicate (i `min` N) other)).
  destruct (decide (http.Code one = code)); cbn [length];
    fold (count_code code (replicate (N - S i) other));
    rewrite !count_code_replicate;
    destruct (decide (http.Code other = code)); lia.
Qed.

End Counting.

(** C7, as the code has it. Launch one [create] per request, for [N >= 1]
    requests that all name [n], a name that is not in the store, and
    whose price texts all parse. Every schedule ends within [5 * N]
    steps and never deadlocks, some schedule lets all threads return,
    and whenever all have returned exactly one has succeeded, the
    [N - 1] others have failed with [AlreadyExists], and the store holds
    the one entry for [n] that the successful thread inserted. *)
Theorem concurrent_creates `{UnicodeTables}
  (m : gmap string dollars) (n : string) (reqs : list http.Request) :
  reqs <> [] ->
  m !! n = None ->
  creates_of n reqs ->
  (exists c, steps (launch create (idle m) reqs) c /\ returned c) /\
  (forall k c, nsteps step k (launch create (idle m) reqs) c ->
     (k <= 5 * length reqs)%nat) /\
  (forall c, steps (launch create (idle m) reqs) c ->
     returned c \/ exists c', step c c') /\
  (forall c, steps (launch create (idle m) reqs) c -> returned c ->
     (exists (i : nat) (req : http.Request) (d : dollars),
        reqs !! i = Some req /\
        strconv.ParseFloat (price_of req) = (d, None) /\
        shared c = idle (<[n := d]> m) /\
        responses c
          = (<[i := Created n d]> (replicate (length reqs) (AlreadyExists n)))) /\
     count_code http.StatusOK (responses c) = 1%nat /\
     count_code http.StatusConflict (responses c) = (length reqs - 1)%nat /\
     length (responses c) = length reqs).
Proof.
  intros Hne Hfresh Hreqs. split; [|split; [|split]].
  - apply (creates_can_return reqs [] m). constructor.
  - intros k c. apply creates_terminate.
  - intros c Hsteps.
    apply (race_inv_progress m n reqs Hreqs c Hne).
    apply (race_inv_steps m n reqs Hfresh Hreqs _ c (race_inv_launch m n reqs) Hsteps).
  - intros c Hsteps Hret.
    pose proof (race_inv_steps m n reqs Hfresh Hreqs _ c
                  (race_inv_launch m n reqs) Hsteps) as Hinv.
    destruct (race_inv_returned m n reqs Hreqs c Hne Hinv Hret)
      as (i & req & d & Hi & Hparse & Hshared & Hresp).
    assert (i < length reqs)%nat as Hlt by (eapply lookup_lt_Some, Hi).
    split; [exists i, req, d; auto|].
    rewrite Hresp, !count_code_insert by exact Hlt.
    rewrite length_insert, length_replicate.
    repeat split; reflexivity.
Qed.

Lemma concurrent_creates_witness :
  let reqs := [request [("item", "boots"); ("price", "40")];
               request [("item", "boots"); ("price", "41")]] in
  let c0 := launch (@create latin1_tables) main_db reqs in
  (exists c, steps c0 c /\ returned c) /\
  (forall k c, nsteps step k c0 c -> (k <= 5 * length reqs)%nat) /\
  (forall c, steps c0 c -> returned c \/ exists c', step c c') /\
  (forall c, steps c0 c -> returned c ->
     (exists (i : nat) (req : http.Request) (d : dollars),
        reqs !! i = Some req /\
        strconv.ParseFloat (price_of req) = (d, None) /\
        shared c = idle (<["boots" := d]> (items main_db)) /\
        responses c
          = (<[i := Created "boots" d]>
               (replicate (length reqs) (@AlreadyExists latin1_tables "boots")))) /\
     count_code 200 (responses c) = 1%nat /\
     count_code 409 (responses c) = (length reqs - 1)%nat /\
     length (responses c) = length reqs).
Proof.
  intros reqs c0.
  apply (@concurrent_creates latin1_tables (items main_db) "boots" reqs).
  - discriminate.
  - reflexivity.
  - repeat constructor.
Defined.

(** C7 as stated fails when the price texts do not parse: two concurrent
    creates of a new name, both with the price text [abc], can both
    return, and then both have failed with [InvalidPrice], none has
    succeeded and the name is still not in the store. It also fails for
    [N = 0]: with no call there is no success. *)
Lemma concurrent_creates_invalid_price :
  items main_db !! "boots" = None /\
  (forall T : UnicodeTables,
     returned (launch (@create T) main_db []) /\
     count_code 200 (responses (launch (@create T) main_db [])) = O) /\
  (forall T : UnicodeTables,
     let req := request [("item", "boots"); ("price", "abc")] in
     exists c,
       steps (launch (@create T) main_db [req; req]) c /\
       returned c /\
       responses c = [@InvalidPrice T "abc"; @InvalidPrice T "abc"] /\
       count_code 200 (responses c) = O /\
       count_code 409 (responses c) = O /\
       items (shared c) !! "boots" = None).
Proof.
  split; [reflexivity|]. split; [intros T; split; [constructor|reflexivity]|].
  intros T req.
  assert (run (@create T req) main_db http.NewRecorder
            = Some (main_db, @InvalidPrice T "abc")) as Hrun.
  { change (run (@create T req) main_db http.NewRecorder)
      with (serve (@create T) (idle (items main_db)) req).
    rewrite serve_create. reflexivity. }
  exists {| shared := main_db;
            threads := [(Return, @InvalidPrice T "abc"); (Return, @InvalidPrice T "abc")] |}.
  split.
  - eapply rtc_trans.
    + apply (run_steps (@create T req) main_db main_db http.NewRecorder
               (@InvalidPrice T "abc") [@waiting T req; @waiting T req]
               0%nat eq_refl Hrun).
    + apply (run_steps (@create T req) main_db main_db http.NewRecorder
               (@InvalidPrice T "abc")
               [(Return, @InvalidPrice T "abc"); @waiting T req]
               1%nat eq_refl Hrun).
  - split; [repeat constructor|]. repeat split; reflexivity.
Qed.

(** * The [list] handler *)

Section Listing.

Lemma append_assoc (a b c : string) : (a +:+ b) +:+ c = a +:+ (b +:+ c).
Proof.
  induction a as [|x a IH]; [reflexivity|].
  rewrite !append_cons, IH. reflexivity.
Qed.

Lemma append_empty_r (a : string) : a +:+ "" = a.
Proof.
  induction a as [|x a IH]; [reflexivity|].
  rewrite append_cons, IH. reflexivity.
Qed.

Lemma Body_WriteHeader (code : Z) (w : http.ResponseWriter) :
  http.Body (http.WriteHeader code w) = http.Body w.
Proof. unfold http.WriteHeader. destruct (http.wroteHeader w); reflexivity. Qed.

(** Running the loop appends the lines of the entries to the body; the
    map and the mutex are not touched. *)
Lemma run_range_items (entries : list (string * dollars)) :
  forall (k : prog) (db : database) (w : http.ResponseWriter),
    entries <> [] ->
    run (seq (range_items entries Return) k) db w
      = run k db (response (http.Code (http.WriteHeader http.StatusOK w))
                           (http.Body w +:+ listing entries)).
Proof.
  induction entries as [|e entries IH]; intros k db w Hne; [congruence|].
  cbn [range_items seq Fprintf run do_op].
  destruct entries as [|e' entries].
  - cbn [range_items seq listing foldr]. unfold http.Write, response.
    rewrite Body_WriteHeader, append_empty_r. reflexivity.
  - rewrite IH by discriminate. f_equal.
    unfold response. f_equal.
    change (listing (e :: e' :: entries))
      with (entry_line e +:+ listing (e' :: entries)).
    unfold http.Write. cbn [http.Body].
    rewrite Body_WriteHeader, append_assoc. reflexivity.
Qed.

Lemma serve_list (m : gmap string dollars) (entries : list (string * dollars))
  (req : http.Request) :
  serve (list_ entries) (idle m) req =
    Some (idle m,
          match entries with
          | [] => http.NewRecorder
          | _ => response 200 (listing entries)
          end).
Proof.
  destruct entries as [|e entries]; [reflexivity|].
  change (serve (list_ (e :: entries)) (idle m) req)
    with (run (seq (range_items (e :: entries) Return) (RUnlock Return))
              {| items := m; mutex := {| writer := false; readers := 1 |} |}
              http.NewRecorder).
  rewrite run_range_items by discriminate. reflexivity.
Qed.

End Listing.

(** X1. [list] always returns, with the mutex released and the store as
    it was, and answers 200. Its body is the lines [<item>: <price>] of
    the entries in the order [range] yields them: one line for every
    entry of the store and no other, no name twice, and nothing at all
    (not even a header of the handler's own) for an empty store. A name
    has a line exactly when [price] finds it, and the line shows the
    price that [price] shows. *)
Theorem list_prints_every_entry `{UnicodeTables}
  (m : gmap string dollars) (entries : list (string * dollars))
  (req : http.Request) :
  ranges m entries ->
  exists w,
    serve (list_ entries) (idle m) req = Some (idle m, w) /\
    http.Code w = http.StatusOK /\
    http.Body w = listing entries /\
    length entries = size m /\
    NoDup entries.*1 /\
    (forall n d, (n, d) ∈ entries <-> m !! n = Some d) /\
    (forall n d req', item_of req' = n -> (n, d) ∈ entries ->
       serve price (idle m) req' = Some (idle m, Price d)) /\
    (m = ∅ -> w = http.NewRecorder).
Proof.
  intros Hperm. unfold ranges in Hperm.
  assert (forall n d, (n, d) ∈ entries <-> m !! n = Some d) as Hin.
  { intros n d. rewrite Hperm. apply elem_of_map_to_list. }
  eexists. split; [apply serve_list|].
  split; [destruct entries; reflexivity|].
  split; [destruct entries; reflexivity|].
  split; [rewrite Hperm; apply length_map_to_list|].
  split; [rewrite Hperm; apply NoDup_fst_map_to_list|].
  split; [exact Hin|]. split.
  - intros n d req' Hreq' Hnd. apply Hin in Hnd.
    rewrite serve_price, Hreq', Hnd. reflexivity.
  - intros ->. rewrite map_to_list_empty in Hperm.
    apply Permutation_nil_r in Hperm. subst entries. reflexivity.
Qed.

Lemma list_prints_every_entry_witness :
  let entries := [("shoes", float32.of_Z 50); ("socks", float32.of_Z 5)] in
  exists w,
    serve (list_ entries) main_db (request []) = Some (main_db, w) /\
    http.Code w = 200 /\
    http.Body w = "shoes: $50.00" +:+ LF +:+ "socks: $5.00" +:+ LF.
Proof.
  intros entries.
  destruct (@list_prints_every_entry latin1_tables (items main_db) entries (request []))
    as (w & Hserve & Hcode & Hbody & _).
  - unfold ranges. vm_compute. first [reflexivity | apply perm_swap].
  - exists w. split; [exact Hserve|]. split; [exact Hcode|]. exact Hbody.
Defined.

(** * The answers of the handlers *)

(** X2. [price] never changes the store. For a name in the store it
    answers 200 with the stored price in display form on a line of its
    own; for any other name it answers 404 with the line
    [no such item: <quoted item>]. *)
Theorem price_reads_the_store `{UnicodeTables}
  (m : gmap string dollars) (req : http.Request) :
  (forall d, m !! item_of req = Some d ->
     serve price (idle m) req = Some (idle m, Price d) /\
     http.Code (Price d) = http.StatusOK /\
     http.Body (Price d) = String_ d +:+ LF) /\
  (m !! item_of req = None ->
     serve price (idle m) req = Some (idle m, NotFound (item_of req)) /\
     http.Code (NotFound (item_of req)) = http.StatusNotFound /\
     (plain (item_of req) ->
        http.Body (NotFound (item_of req))
          = "no such item: " +:+ double_quoted (item_of req) +:+ LF)) /\
  (exists w, serve price (idle m) req = Some (idle m, w)).
Proof.
  rewrite serve_price. split; [|split].
  - intros d ->. auto.
  - intros ->. split; [reflexivity|]. split; [reflexivity|].
    intros Hplain. apply (error_bodies _ Hplain).
  - eauto.
Qed.

(** X3. Whatever the route and the request, the handler returns with the
    mutex released and a response whose status is 200, 400, 404 or 409.
    A response other than 200 means that the store is as it was. 400 is
    only answered by [create] and [update], when the price text does not
    parse; 409 only by [create], for a name in the store; 404 never by
    [create], and only for a name that is not in the store. *)
Theorem status_tells_the_effect `{UnicodeTables}
  (r : route) (m : gmap string dollars) (req : http.Request) :
  exists m' w,
    serve (handler r) (idle m) req = Some (idle m', w) /\
    http.wroteHeader w = true /\
    (http.Code w = 200 \/ http.Code w = 400 \/ http.Code w = 404 \/ http.Code w = 409) /\
    (http.Code w <> 200 -> m' = m) /\
    (http.Code w = 400 ->
       (r = RouteCreate \/ r = RouteUpdate) /\
       (strconv.ParseFloat (price_of req)).2 <> None) /\
    (http.Code w = 409 -> r = RouteCreate /\ is_Some (m !! item_of req)) /\
    (http.Code w = 404 -> r <> RouteCreate /\ m !! item_of req = None).
Proof.
  destruct r; cbn [handler];
    rewrite ?serve_price, ?serve_create, ?serve_update, ?serve_delete;
    destruct (strconv.ParseFloat (price_of req)) as [d [e|]];
    destruct (m !! item_of req) as [old|];
    do 2 eexists; (split; [reflexivity|]); cbn;
    (split; [reflexivity|]); (split; [auto|]);
    repeat split; intros; try congruence; try lia; eauto.
Qed.

(** * Requests in sequence *)

(** X4. Create, then delete: for a name that is not in the store and a
    price text that parses, a [create] followed by a [delete] of the same
    name both answer 200 and leave the store exactly as it was before the
    two. *)
Theorem create_then_delete `{UnicodeTables}
  (m : gmap string dollars) (req req' : http.Request) (d : dollars) :
  m !! item_of req = None ->
  strconv.ParseFloat (price_of req) = (d, None) ->
  item_of req' = item_of req ->
  exists db1,
    serve create (idle m) req = Some (db1, Created (item_of req) d) /\
    serve delete db1 req' = Some (idle m, Deleted (item_of req)) /\
    http.Code (Created (item_of req) d) = http.StatusOK /\
    http.Code (Deleted (item_of req)) = http.StatusOK.
Proof.
  intros Hfresh Hparse Hsame.
  exists (idle (<[item_of req := d]> m)).
  rewrite serve_create, Hparse, Hfresh, serve_delete, Hsame, lookup_insert_eq.
  rewrite delete_insert_id by exact Hfresh. auto.
Qed.

Lemma create_then_delete_witness :
  let req := request [("item", "boots"); ("price", "40")] in
  exists db1,
    serve (@create latin1_tables) main_db req
      = Some (db1, Created "boots" (float32.of_Z 40)) /\
    serve (@delete latin1_tables) db1 (request [("item", "boots")])
      = Some (main_db, Deleted "boots").
Proof.
  intros req.
  destruct (@create_then_delete latin1_tables (items main_db) req
              (request [("item", "boots")]) (float32.of_Z 40)
              eq_refl eq_refl eq_refl) as (db1 & H1 & H2 & _).
  exists db1. split; [exact H1|exact H2].
Defined.

(** X5. The last update wins: two [update] requests for a name in the
    store, with price texts that parse, both succeed, and they leave the
    store that the second alone would have left. An [update] that repeats
    the one before changes nothing. *)
Theorem update_last_wins `{UnicodeTables}
  (m : gmap string dollars) (req1 req2 : http.Request) (d1 d2 : dollars) :
  is_Some (m !! item_of req1) ->
  item_of req2 = item_of req1 ->
  strconv.ParseFloat (price_of req1) = (d1, None) ->
  strconv.ParseFloat (price_of req2) = (d2, None) ->
  exists db1 db2,
    serve update (idle m) req1 = Some (db1, Updated (item_of req1) d1) /\
    serve update db1 req2 = Some (db2, Updated (item_of req1) d2) /\
    serve update (idle m) req2 = Some (db2, Updated (item_of req1) d2) /\
    items db2 !! item_of req1 = Some d2 /\
    serve update db1 req1 = Some (db1, Updated (item_of req1) d1).
Proof.
  intros [old Hold] Hsame Hparse1 Hparse2.
  exists (idle (<[item_of req1 := d1]> m)), (idle (<[item_of req1 := d2]> m)).
  rewrite !serve_update, Hparse1, Hparse2, Hsame, Hold, lookup_insert_eq.
  rewrite !insert_insert_eq. cbn [items idle]. rewrite lookup_insert_eq. auto.
Qed.

Lemma update_last_wins_witness :
  let req1 := request [("item", "shoes"); ("price", "45")] in
  let req2 := request [("item", "shoes"); ("price", "60")] in
  exists db1 db2,
    serve (@update latin1_tables) main_db req1
      = Some (db1, Updated "shoes" (float32.of_Z 45)) /\
    serve (@update latin1_tables) db1 req2
      = Some (db2, Updated "shoes" (float32.of_Z 60)) /\
    serve (@update latin1_tables) main_db req2
      = Some (db2, Updated "shoes" (float32.of_Z 60)).
Proof.
  intros req1 req2.
  destruct (@update_last_wins latin1_tables (items main_db) req1 req2
              (float32.of_Z 45) (float32.of_Z 60)
              (ex_intro _ (float32.of_Z 50) eq_refl) eq_refl eq_refl eq_refl)
    as (db1 & db2 & H1 & H2 & H3 & _).
  exists db1, db2. auto.
Defined.

(** X6. For a name in the store and a price text that parses, a [delete]
    followed by a [create] of the name both succeed and leave the store
    that one [update] with the same price text leaves. *)
Theorem delete_then_create_is_update `{UnicodeTables}
  (m : gmap string dollars) (del req : http.Request) (d : dollars) :
  is_Some (m !! item_of req) ->
  item_of del = item_of req ->
  strconv.ParseFloat (price_of req) = (d, None) ->
  exists db1 db2,
    serve delete (idle m) del = Some (db1, Deleted (item_of req)) /\
    serve create db1 req = Some (db2, Created (item_of req) d) /\
    serve update (idle m) req = Some (db2, Updated (item_of req) d).
Proof.
  intros [old Hold] Hsame Hparse.
  exists (idle (base.delete (item_of req) m)), (idle (<[item_of req := d]> m)).
  rewrite serve_delete, serve_create, serve_update, Hsame, Hparse, Hold.
  rewrite lookup_delete_eq, insert_delete_eq. auto.
Qed.

Lemma delete_then_create_is_update_witness :
  let del := request [("item", "socks")] in
  let req := request [("item", "socks"); ("price", "7")] in
  exists db1 db2,
    serve (@delete latin1_tables) main_db del = Some (db1, Deleted "socks") /\
    serve (@create latin1_tables) db1 req
      = Some (db2, Created "socks" (float32.of_Z 7)) /\
    serve (@update latin1_tables) main_db req
      = Some (db2, Updated "socks" (float32.of_Z 7)).
Proof.
  intros del req.
  apply (@delete_then_create_is_update latin1_tables (items main_db) del req
           (float32.of_Z 7) (ex_intro _ (float32.of_Z 5) eq_refl) eq_refl eq_refl).
Defined.

(** X7. Once a name has been deleted it is gone for every handler: the
    [delete] of a name in the store succeeds, and on the store it leaves
    a [price] and a second [delete] of that name answer [NotFound], an
    [update] with a price text that parses answers [NotFound], and the
    second [delete] changes nothing. *)
Theorem deleted_name_is_gone `{UnicodeTables}
  (m : gmap string dollars) (del req : http.Request) :
  is_Some (m !! item_of del) ->
  item_of req = item_of del ->
  exists db1,
    serve delete (idle m) del = Some (db1, Deleted (item_of del)) /\
    serve price db1 req = Some (db1, NotFound (item_of del)) /\
    serve delete db1 req = Some (db1, NotFound (item_of del)) /\
    ((strconv.ParseFloat (price_of req)).2 = None ->
       serve update db1 req = Some (db1, NotFound (item_of del))) /\
    http.Code (NotFound (item_of del)) = http.StatusNotFound.
Proof.
  intros [old Hold] Hsame.
  exists (idle (base.delete (item_of del) m)).
  rewrite !serve_delete, serve_price, serve_update, Hsame, Hold, lookup_delete_eq.
  repeat (split; [reflexivity|]). split; [|reflexivity].
  destruct (strconv.ParseFloat _) as [d e]. cbn. intros ->. reflexivity.
Qed.

Lemma deleted_name_is_gone_witness :
  let del := request [("item", "socks")] in
  exists db1,
    serve (@delete latin1_tables) main_db del = Some (db1, Deleted "socks") /\
    serve (@price latin1_tables) db1 del = Some (db1, @NotFound latin1_tables "socks") /\
    serve (@delete latin1_tables) db1 del = Some (db1, @NotFound latin1_tables "socks").
Proof.
  intros del.
  destruct (@deleted_name_is_gone latin1_tables (items main_db) del del
              (ex_intro _ (float32.of_Z 5) eq_refl) eq_refl)
    as (db1 & H1 & H2 & H3 & _).
  exists db1. auto.
Defined.

Section Provenance.
Context `{UnicodeTables}.

(** What one request can do to an entry of the store. *)
Lemma serve_provenance (r : route) (req : http.Request) (m : gmap string dollars) :
  exists m' w,
    serve (handler r) (idle m) req = Some (idle m', w) /\
    (forall n d, m' !! n = Some d ->
       m !! n = Some d \/ sets_price (r, req) n d) /\
    (forall n, m !! n = None -> is_Some (m' !! n) ->
       r = RouteCreate /\ item_of req = n) /\
    (forall n, is_Some (m !! n) -> m' !! n = None ->
       r = RouteDelete /\ item_of req = n).
Proof.
  destruct r; cbn [handler];
    rewrite ?serve_price, ?serve_create, ?serve_update, ?serve_delete.
  - destruct (m !! item_of req); do 2 eexists; (split; [reflexivity|]);
      repeat split; intros; auto; try congruence;
      match goal with
      | H1 : ?m !! ?n = None, H2 : is_Some (?m !! ?n) |- _ =>
          rewrite H1 in H2; destruct H2; discriminate
      end.
  - destruct (strconv.ParseFloat (price_of req)) as [d [e|]] eqn:Hparse;
      [|destruct (m !! item_of req) eqn:Hm];
      do 2 eexists; (split; [reflexivity|]).
    1,2: repeat split; intros; auto; try congruence;
      match goal with
      | H1 : ?m !! ?n = None, H2 : is_Some (?m !! ?n) |- _ =>
          rewrite H1 in H2; destruct H2; discriminate
      end.
    split; [|split].
    + intros n d' Hn. apply lookup_insert_Some in Hn as [[<- <-]|[_ Hn]]; [right|auto].
      unfold sets_price. cbn. auto.
    + intros n Hn Hn'. split; [reflexivity|].
      destruct (decide (item_of req = n)) as [|Hne]; [assumption|].
      rewrite lookup_insert_ne, Hn in Hn' by exact Hne. destruct Hn'; discriminate.
    + intros n Hn Hn'. apply lookup_insert_None in Hn' as [Hn' _].
      rewrite Hn' in Hn. destruct Hn; discriminate.
  - destruct (strconv.ParseFloat (price_of req)) as [d [e|]] eqn:Hparse;
      [|destruct (m !! item_of req) eqn:Hm];
      do 2 eexists; (split; [reflexivity|]).
    1,3: repeat split; intros; auto; try congruence;
      match goal with
      | H1 : ?m !! ?n = None, H2 : is_Some (?m !! ?n) |- _ =>
          rewrite H1 in H2; destruct H2; discriminate
      end.
    split; [|split].
    + intros n d' Hn. apply lookup_insert_Some in Hn as [[<- <-]|[_ Hn]]; [right|auto].
      unfold sets_price. cbn. auto.
    + intros n Hn Hn'.
      destruct (decide (item_of req = n)) as [<-|Hne]; [congruence|].
      rewrite lookup_insert_ne, Hn in Hn' by exact Hne. destruct Hn'; discriminate.
    + intros n Hn Hn'. apply lookup_insert_None in Hn' as [Hn' _].
      rewrite Hn' in Hn. destruct Hn; discriminate.
  - destruct (m !! item_of req) eqn:Hm; do 2 eexists; (split; [reflexivity|]).
    2: repeat split; intros; auto; try congruence;
      match goal with
      | H1 : ?m !! ?n = None, H2 : is_Some (?m !! ?n) |- _ =>
          rewrite H1 in H2; destruct H2; discriminate
      end.
    split; [|split].
    + intros n d' Hn. apply lookup_delete_Some in Hn as [_ Hn]. auto.
    + intros n Hn Hn'. destruct Hn' as [x Hx].
      apply lookup_delete_Some in Hx as [_ Hx]. congruence.
    + intros n Hn Hn'. split; [reflexivity|].
      apply lookup_delete_None in Hn' as [Hn'|Hn']; [exact Hn'|].
      rewrite Hn' in Hn. destruct Hn; discriminate.
Qed.

(** What a sequence of requests can do to the entries of the store. *)
Lemma serve_all_provenance (calls : list (route * http.Request))
  (m : gmap string dollars) :
  exists m',
    serve_all calls (idle m) = Some (idle m') /\
    (forall n d, m' !! n = Some d ->
       m !! n = Some d \/ exists c, c ∈ calls /\ sets_price c n d) /\
    (forall n, m !! n = None -> is_Some (m' !! n) ->
       exists req, (RouteCreate, req) ∈ calls /\ item_of req = n) /\
    (forall n, is_Some (m !! n) -> m' !! n = None ->
       exists req, (RouteDelete, req) ∈ calls /\ item_of req = n).
Proof.
  revert m. induction calls as [|[r req] calls IH]; intros m.
  - exists m. split; [reflexivity|]. split; [auto|]. split.
    + intros n Hn [x Hx]. congruence.
    + intros n [x Hx] Hn. congruence.
  - destruct (serve_provenance r req m) as (m1 & w & Hserve & Hval & Hnew & Hgone).
    destruct (IH m1) as (m' & Hall & Hval' & Hnew' & Hgone').
    exists m'. cbn [serve_all]. rewrite Hserve. split; [exact Hall|].
    split; [|split].
    + intros n d Hn. destruct (Hval' n d Hn) as [Hn1|(c & Hc & Hset)].
      * destruct (Hval n d Hn1) as [Hn0|Hset]; [auto|].
        right. exists (r, req). split; [left|exact Hset].
      * right. exists c. split; [right; exact Hc|exact Hset].
    + intros n Hn Hn'. destruct (m1 !! n) as [x|] eqn:Hn1.
      * destruct (Hnew n Hn) as [-> <-]; [rewrite Hn1; eauto|].
        exists req. split; [left|reflexivity].
      * destruct (Hnew' n Hn1 Hn') as (req' & Hin & Hitem).
        exists req'. split; [right; exact Hin|exact Hitem].
    + intros n Hn Hn'. destruct (m1 !! n) as [x|] eqn:Hn1.
      * destruct (Hgone' n) as (req' & Hin & Hitem); [rewrite Hn1; eauto|exact Hn'|].
        exists req'. split; [right; exact Hin|exact Hitem].
      * destruct (Hgone n Hn Hn1) as [-> <-].
        exists req. split; [left|reflexivity].
Qed.

End Provenance.

(** X8. Any sequence of requests is served to its end, each handler
    leaving the mutex released. In the store that results, every price
    is either the price the name had at the start or the parsed price
    text of a [create] or [update] request of the sequence for that
    name; a name that was not in the store at the start is there only if
    the sequence has a [create] for it, and a name of the start is
    missing only if the sequence has a [delete] for it. *)
Theorem prices_come_from_requests `{UnicodeTables}
  (calls : list (route * http.Request)) (m : gmap string dollars) :
  exists m',
    serve_all calls (idle m) = Some (idle m') /\
    (forall n d, m' !! n = Some d ->
       m !! n = Some d \/ exists c, c ∈ calls /\ sets_price c n d) /\
    (forall n, m !! n = None -> is_Some (m' !! n) ->
       exists req, (RouteCreate, req) ∈ calls /\ item_of req = n) /\
    (forall n, is_Some (m !! n) -> m' !! n = None ->
       exists req, (RouteDelete, req) ∈ calls /\ item_of req = n).
Proof. apply serve_all_provenance. Qed.

(** * Any mix of handlers running concurrently *)

Section CallShapes.
Context `{UnicodeTables}.

Lemma update_shape (req : http.Request) :
  exists p, update req = Lock p /\ in_critical_section p.
Proof.
  unfold update, defer.
  destruct (strconv.ParseFloat _) as [d [e|]].
  - eexists. split; [reflexivity|]. cbn. repeat constructor.
  - eexists. split; [reflexivity|]. cbn.
    apply cs_do; [reflexivity|]. intros [old|]; repeat constructor.
Qed.

Lemma delete_shape (req : http.Request) :
  exists p, delete req = Lock p /\ in_critical_section p.
Proof.
  unfold delete, defer. eexists. split; [reflexivity|]. cbn.
  apply cs_do; [reflexivity|]. intros [old|]; repeat constructor.
Qed.

Lemma price_shape (req : http.Request) :
  exists p, price req = RLock p /\ in_read_section p.
Proof.
  unfold price, defer. eexists. split; [reflexivity|]. cbn.
  apply rs_do; [reflexivity|]. intros [old|]; repeat constructor.
Qed.

(** Every handler takes the mutex first: [price] the read lock, the
    others the write lock. *)
Lemma handler_shape (r : route) (req : http.Request) :
  (r = RoutePrice /\ exists p, handler r req = RLock p /\ in_read_section p) \/
  (r <> RoutePrice /\ exists p, handler r req = Lock p /\ in_critical_section p).
Proof.
  destruct r; cbn [handler].
  - left. split; [reflexivity|]. apply price_shape.
  - right. split; [discriminate|]. apply create_shape.
  - right. split; [discriminate|]. apply update_shape.
  - right. split; [discriminate|]. apply delete_shape.
Qed.

Lemma handler_not_Return (r : route) (req : http.Request) :
  is_Return (handler r req) = false.
Proof.
  destruct (handler_shape r req) as [(_ & p & -> & _)|(_ & p & -> & _)]; reflexivity.
Qed.

Lemma serve_call_spec (m : gmap string dollars) (c : route * http.Request) :
  serve (handler c.1) (idle m) c.2
    = Some (idle (serve_call m c).1, (serve_call m c).2).
Proof.
  unfold serve_call. destruct c as [r req]. cbn [fst snd].
  destruct r; cbn [handler];
    rewrite ?serve_price, ?serve_create, ?serve_update, ?serve_delete;
    destruct (strconv.ParseFloat (price_of req)) as [d [e|]];
    destruct (m !! item_of req); reflexivity.
Qed.

Lemma serve_call_price (m : gmap string dollars) (req : http.Request) :
  (serve_call m (RoutePrice, req)).1 = m.
Proof. unfold serve_call. cbn [fst snd handler]. rewrite serve_price. reflexivity. Qed.

End CallShapes.

Section ReadSection.

Lemma in_read_section_not_Return (p : prog) :
  in_read_section p -> is_Return p = false.
Proof. intros []; reflexivity. Qed.

(** A handler in its read section can always take a step, whatever the
    number of readers: it either releases the read lock and returns, or
    stays in its read section, leaving the database as it is. *)
Lemma in_read_section_step (p : prog) (M : gmap string dollars)
  (w : http.ResponseWriter) :
  in_read_section p ->
  (p = RUnlock Return /\
   forall k, step1 p (reading M (S k)) w = Some (Return, reading M k, w)) \/
  (exists p' w',
     in_read_section p' /\
     forall k, step1 p (reading M k) w = Some (p', reading M k, w')).
Proof.
  intros [|o k Ho Hk].
  - left. split; reflexivity.
  - right. destruct o; try discriminate Ho; cbn;
      do 2 eexists; (split; [apply Hk|]); intros; reflexivity.
Qed.

Lemma read_not_write (p : prog) :
  in_read_section p -> in_critical_section p -> False.
Proof.
  intros Hr Hc. induction Hr as [|o k Ho Hk IH].
  - inversion Hc; subst. discriminate.
  - inversion Hc; subst.
    + discriminate Ho.
    + apply (IH None). auto.
Qed.

Lemma step1_Lock (p p' : prog) (db db' : database) (w w' : http.ResponseWriter) :
  step1 (Lock p) db w = Some (p', db', w') ->
  db = idle (items db) /\ p' = p /\ db' = held (items db) /\ w' = w.
Proof.
  destruct db as [M [wr rd]]. cbn.
  destruct wr; [discriminate|]. destruct rd; [|discriminate]. cbn.
  intros [= <- <- <-]. auto.
Qed.

Lemma step1_RLock (p p' : prog) (db db' : database) (w w' : http.ResponseWriter) :
  step1 (RLock p) db w = Some (p', db', w') ->
  writer (mutex db) = false /\ p' = p /\
  db' = reading (items db) (S (readers (mutex db))) /\ w' = w.
Proof.
  destruct db as [M [wr rd]]. cbn.
  destruct wr; [discriminate|]. cbn.
  intros [= <- <- <-]. auto.
Qed.

End ReadSection.

Section SerialOrder.
Context `{UnicodeTables}.

Lemma serial_snoc (calls : list (route * http.Request)) (m : gmap string dollars)
  (order : list nat) (i : nat) :
  serial calls m (order ++ [i]) = serial_step calls (serial calls m order) i.
Proof. unfold serial. apply foldl_snoc. Qed.

End SerialOrder.

Section CallsInvariant.
Context `{UnicodeTables}.
Variables (m : gmap string dollars) (calls : list (route * http.Request)).

Lemma calls_inv_launch : calls_inv m calls (launch_calls (idle m) calls).
Proof.
  exists [], [], m, ∅. split; [reflexivity|]. split; [constructor|].
  split; [apply length_fmap|]. split.
  - intros i cl Hi _. cbn. rewrite list_lookup_fmap, Hi. reflexivity.
  - split.
    + intros i Hi. inversion Hi.
    + left. split; [reflexivity|]. split; [constructor|]. intros i Hi. inversion Hi.
Qed.

Lemma calls_inv_step (c c' : config) :
  calls_inv m calls c -> step c c' -> calls_inv m calls c'.
Proof.
  intros (order & active & M & log & Hser & Hnd & Hlen & Hwait & Hdone & Hlock) Hstep.
  destruct Hstep as [c i p p' w w' db' Hi Hstep1].
  assert (i < length (threads c))%nat as Hlt by (eapply lookup_lt_Some, Hi).
  destruct (decide (i ∈ order)) as [Hio|Hio].
  - destruct (decide (i ∈ active)) as [Hia|Hia].
    2: { destruct (Hdone i Hio Hia) as (wf & _ & Hret).
         rewrite Hret in Hi. injection Hi as <- <-. discriminate Hstep1. }
    destruct Hlock as [(Hsh & Hnda & Hact) |
                       (j & Mcur & pj & wj & wf & -> & Hjo & Hsh & Hj & Hcs & Hlog & Hrun)].
    + (* a reader takes a step *)
      destruct (Hact i Hia) as (_ & p0 & w0 & wf & Hi' & Hrs & Hlogi & Hruni).
      rewrite Hi in Hi'. injection Hi' as <- <-.
      rewrite Hsh in Hstep1.
      destruct (in_read_section_step p M w Hrs) as [(-> & Hs) | (p1 & w1 & Hrs1 & Hs)].
      * apply list_elem_of_split in Hia as (a1 & a2 & ->).
        apply NoDup_app in Hnda as (Hnd1 & Hdisj & Hnd2).
        apply NoDup_cons in Hnd2 as [Hi2 Hnd2].
        assert (i ∉ a1) as Hi1. { intros Hin. apply (Hdisj i Hin). left. }
        assert (length (a1 ++ i :: a2) = S (length (a1 ++ a2))) as Hlen'.
        { rewrite !length_app. cbn [length]. lia. }
        rewrite Hlen', Hs in Hstep1. injection Hstep1 as <- <- <-.
        cbn in Hruni. injection Hruni as <-.
        exists order, (a1 ++ a2), M, log. cbn [shared threads].
        split; [exact Hser|]. split; [exact Hnd|].
        split; [rewrite length_insert; exact Hlen|].
        split.
        { intros k cl Hk Hko. rewrite list_lookup_insert_ne; [auto|].
          intros <-. contradiction. }
        split.
        { intros k Hko Hka. destruct (decide (k = i)) as [->|Hki].
          - exists w. split; [exact Hlogi|]. apply list_lookup_insert_eq. exact Hlt.
          - rewrite list_lookup_insert_ne by congruence. apply Hdone; [exact Hko|].
            rewrite elem_of_app, elem_of_cons. rewrite elem_of_app in Hka. tauto. }
        left. split; [reflexivity|]. split.
        { apply NoDup_app. split; [exact Hnd1|]. split; [|exact Hnd2].
          intros x Hx Hx2. apply (Hdisj x Hx). right. exact Hx2. }
        intros k Hk.
        assert (k <> i) as Hki.
        { intros ->. apply elem_of_app in Hk as [|]; contradiction. }
        rewrite list_lookup_insert_ne by congruence. apply Hact.
        rewrite elem_of_app, elem_of_cons. apply elem_of_app in Hk. tauto.
      * rewrite Hs in Hstep1. injection Hstep1 as <- <- <-.
        exists order, active, M, log. cbn [shared threads].
        split; [exact Hser|]. split; [exact Hnd|].
        split; [rewrite length_insert; exact Hlen|].
        split.
        { intros k cl Hk Hko. rewrite list_lookup_insert_ne; [auto|].
          intros <-. contradiction. }
        split.
        { intros k Hko Hka. rewrite list_lookup_insert_ne; [auto|].
          intros <-. contradiction. }
        left. split; [reflexivity|]. split; [exact Hnda|].
        intros k Hk. destruct (decide (k = i)) as [->|Hki].
        -- split; [exact Hio|]. exists p1, w1, wf.
           split; [apply list_lookup_insert_eq; exact Hlt|].
           split; [exact Hrs1|]. split; [exact Hlogi|].
           rewrite <- Hruni. symmetry. apply run_step1, Hs.
        -- rewrite list_lookup_insert_ne by congruence. apply Hact, Hk.
    + (* the writer takes a step *)
      apply list_elem_of_singleton in Hia. subst j.
      rewrite Hi in Hj. injection Hj as <- <-.
      rewrite Hsh in Hstep1.
      destruct (in_critical_section_step p Mcur w Hcs) as (p1 & db1 & w1 & Hs & Hcases).
      rewrite Hs in Hstep1. injection Hstep1 as <- <- <-.
      rewrite (run_step1 _ _ _ _ _ _ Hs) in Hrun.
      destruct Hcases as [(-> & -> & ->) | (Hcs' & M1 & ->)].
      * cbn in Hrun. injection Hrun as <- <-.
        exists order, [], Mcur, log. cbn [shared threads].
        split; [exact Hser|]. split; [exact Hnd|].
        split; [rewrite length_insert; exact Hlen|].
        split.
        { intros k cl Hk Hko. rewrite list_lookup_insert_ne; [auto|].
          intros <-. contradiction. }
        split.
        { intros k Hko _. destruct (decide (k = i)) as [->|Hki].
          - exists w. split; [exact Hlog|]. apply list_lookup_insert_eq. exact Hlt.
          - rewrite list_lookup_insert_ne by congruence. apply Hdone; [exact Hko|].
            rewrite list_elem_of_singleton. exact Hki. }
        left. split; [reflexivity|]. split; [constructor|].
        intros k Hk. inversion Hk.
      * exists order, [i], M, log. cbn [shared threads].
        split; [exact Hser|]. split; [exact Hnd|].
        split; [rewrite length_insert; exact Hlen|].
        split.
        { intros k cl Hk Hko. rewrite list_lookup_insert_ne; [auto|].
          intros <-. contradiction. }
        split.
        { intros k Hko Hka. rewrite list_lookup_insert_ne; [auto|].
          intros <-. apply Hka. left. }
        right. exists i, M1, p1, w1, wf.
        split; [reflexivity|]. split; [exact Hio|]. split; [reflexivity|].
        split; [apply list_lookup_insert_eq; exact Hlt|].
        split; [exact Hcs'|]. split; [exact Hlog|exact Hrun].
  - (* a thread takes the mutex *)
    assert (is_Some (calls !! i)) as [cl Hcl].
    { apply lookup_lt_is_Some. rewrite <- Hlen. exact Hlt. }
    rewrite (Hwait i cl Hcl Hio) in Hi. injection Hi as <- <-.
    pose proof (serve_call_spec M cl) as Hspec. unfold serve in Hspec.
    assert (serial calls m (order ++ [i])
              = ((serve_call M cl).1, <[i := (serve_call M cl).2]> log)) as Hser'.
    { rewrite serial_snoc, Hser. unfold serial_step. rewrite Hcl. reflexivity. }
    assert (NoDup (order ++ [i])) as Hnd'.
    { apply NoDup_app. split; [exact Hnd|]. split; [|apply NoDup_singleton].
      intros x Hx Hxi. apply list_elem_of_singleton in Hxi. subst. contradiction. }
    destruct (handler_shape cl.1 cl.2) as [(Hr & p0 & Hp0 & Hrs) | (Hr & p0 & Hp0 & Hcs)];
      rewrite Hp0 in Hstep1, Hspec.
    + (* a reader *)
      apply step1_RLock in Hstep1 as (Hwr & -> & -> & ->).
      destruct Hlock as [(Hsh & Hnda & Hact) |
                         (j & Mcur & pj & wj & wf & _ & _ & Hsh & _)].
      2: { rewrite Hsh in Hwr. discriminate Hwr. }
      assert ((serve_call M cl).1 = M) as HM.
      { destruct cl as [r req]. cbn in Hr. subst r. apply serve_call_price. }
      rewrite HM in Hser', Hspec.
      exists (order ++ [i]), (i :: active), M, (<[i := (serve_call M cl).2]> log).
      cbn [shared threads].
      split; [exact Hser'|]. split; [exact Hnd'|].
      split; [rewrite length_insert; exact Hlen|].
      split.
      { intros k cl' Hk Hko. rewrite elem_of_app, list_elem_of_singleton in Hko.
        rewrite list_lookup_insert_ne by (intros ->; tauto).
        apply Hwait; [exact Hk|tauto]. }
      split.
      { intros k Hko Hka. rewrite not_elem_of_cons in Hka. destruct Hka as [Hki Hka].
        rewrite elem_of_app, list_elem_of_singleton in Hko.
        destruct Hko as [Hko|Hko]; [|congruence].
        destruct (Hdone k Hko Hka) as (wk & Hlogk & Hk). exists wk.
        rewrite lookup_insert_ne by congruence.
        rewrite list_lookup_insert_ne by congruence. auto. }
      left. split; [rewrite Hsh; reflexivity|]. split.
      { apply NoDup_cons. split; [|exact Hnda]. intros Hia. apply Hio, (Hact i Hia). }
      intros k Hk. apply elem_of_cons in Hk as [->|Hk].
      * split; [apply elem_of_app; right; apply list_elem_of_singleton; reflexivity|].
        exists p0, http.NewRecorder, (serve_call M cl).2.
        split; [apply list_lookup_insert_eq; exact Hlt|].
        split; [exact Hrs|]. split; [apply lookup_insert_eq|exact Hspec].
      * destruct (Hact k Hk) as (Hko & pk & wk & wfk & Hkth & Hrsk & Hlogk & Hrunk).
        assert (k <> i) as Hki by (intros ->; contradiction).
        split; [apply elem_of_app; left; exact Hko|]. exists pk, wk, wfk.
        rewrite list_lookup_insert_ne, lookup_insert_ne by congruence. auto.
    + (* a writer *)
      apply step1_Lock in Hstep1 as (Hidle & -> & -> & ->).
      destruct Hlock as [(Hsh & Hnda & Hact) |
                         (j & Mcur & pj & wj & wf & _ & _ & Hsh & _)].
      2: { rewrite Hsh in Hidle. discriminate Hidle. }
      rewrite Hsh in Hidle. cbn in Hidle. injection Hidle as Hzero.
      destruct active; [|discriminate Hzero].
      exists (order ++ [i]), [i], (serve_call M cl).1, (<[i := (serve_call M cl).2]> log).
      cbn [shared threads].
      split; [exact Hser'|]. split; [exact Hnd'|].
      split; [rewrite length_insert; exact Hlen|].
      split.
      { intros k cl' Hk Hko. rewrite elem_of_app, list_elem_of_singleton in Hko.
        rewrite list_lookup_insert_ne by (intros ->; tauto).
        apply Hwait; [exact Hk|tauto]. }
      split.
      { intros k Hko Hka. rewrite list_elem_of_singleton in Hka.
        rewrite elem_of_app, list_elem_of_singleton in Hko.
        destruct Hko as [Hko|Hko]; [|congruence].
        destruct (Hdone k Hko) as (wk & Hlogk & Hk); [intros Hin; inversion Hin|].
        exists wk.
        rewrite lookup_insert_ne by congruence.
        rewrite list_lookup_insert_ne by congruence. auto. }
      right. exists i, M, p0, http.NewRecorder, (serve_call M cl).2.
      split; [reflexivity|].
      split; [apply elem_of_app; right; apply list_elem_of_singleton; reflexivity|].
      split; [rewrite Hsh; reflexivity|].
      split; [apply list_lookup_insert_eq; exact Hlt|].
      split; [exact Hcs|]. split; [apply lookup_insert_eq|exact Hspec].
Qed.

Lemma calls_inv_steps (c c' : config) :
  calls_inv m calls c -> steps c c' -> calls_inv m calls c'.
Proof.
  intros Hinv Hsteps. induction Hsteps as [|c c1 c2 Hstep _ IH]; [exact Hinv|].
  apply IH. eapply calls_inv_step; eassumption.
Qed.

End CallsInvariant.

Section CallsOutcome.
Context `{UnicodeTables}.

(** Only the calls of [order] have a response in the log. *)
Lemma serial_log_order (calls : list (route * http.Request))
  (m : gmap string dollars) (order : list nat) (i : nat) :
  is_Some ((serial calls m order).2 !! i) -> i ∈ order.
Proof.
  induction order as [|k order IH] using rev_ind.
  - cbn. rewrite lookup_empty. intros [w Hw]. discriminate Hw.
  - rewrite serial_snoc. unfold serial_step. rewrite elem_of_app, list_elem_of_singleton.
    destruct (calls !! k) as [cl|]; cbn [snd].
    + rewrite lookup_insert_is_Some. intros [->|[_ Hi]]; auto.
    + auto.
Qed.

(** [serial] is [serve_all] on the calls picked in the order given. *)
Lemma serve_all_pick (calls : list (route * http.Request)) (order : list nat) :
  forall (m : gmap string dollars) (log : gmap nat http.ResponseWriter),
    serve_all (pick calls order) (idle m)
      = Some (idle (foldl (serial_step calls) (m, log) order).1).
Proof.
  induction order as [|i order IH]; intros m log; [reflexivity|].
  unfold pick. cbn [omap foldl list_omap]. fold (pick calls order).
  unfold serial_step at 2. destruct (calls !! i) as [[r req]|]; [|apply IH].
  cbn [serve_all]. rewrite (serve_call_spec m (r, req)). cbn [fst snd]. apply IH.
Qed.

(** When every handler has returned, the store and the responses are
    those of the calls served one after the other, in the order in which
    the threads took the mutex. *)
Lemma calls_inv_returned (m : gmap string dollars)
  (calls : list (route * http.Request)) (c : config) :
  calls_inv m calls c -> returned c ->
  exists order : list nat,
    order ≡ₚ List.seq 0 (length calls) /\
    shared c = idle (serial calls m order).1 /\
    forall i, responses c !! i = (serial calls m order).2 !! i.
Proof.
  intros (order & active & M & log & Hser & Hnd & Hlen & Hwait & Hdone & Hlock) Hret.
  unfold returned in Hret. rewrite Forall_lookup in Hret.
  assert (active = [] /\ shared c = idle M) as [-> Hsh].
  { destruct Hlock as [(Hsh & Hnda & Hact) |
                       (j & Mcur & pj & wj & wf & _ & _ & _ & Hj & Hcs & _)].
    - destruct active as [|k active]; [auto|].
      destruct (Hact k) as (_ & p & w0 & w & Hk & Hrs & _); [left|].
      apply Hret in Hk. cbn in Hk.
      rewrite (in_read_section_not_Return p Hrs) in Hk. discriminate Hk.
    - apply Hret in Hj. cbn in Hj.
      rewrite (in_critical_section_not_Return pj Hcs) in Hj. discriminate Hj. }
  assert (forall i, i ∈ order <-> (i < length calls)%nat) as Hall.
  { intros i. split.
    - intros Hi. destruct (Hdone i Hi) as (w & _ & Hth); [intros Hin; inversion Hin|].
      rewrite <- Hlen. eapply lookup_lt_Some, Hth.
    - intros Hi. destruct (decide (i ∈ order)) as [|Hno]; [assumption|exfalso].
      apply lookup_lt_is_Some in Hi as [cl Hcl].
      specialize (Hret _ _ (Hwait i cl Hcl Hno)). cbn in Hret.
      rewrite handler_not_Return in Hret. discriminate Hret. }
  exists order. rewrite Hser. cbn [fst snd]. split; [|split; [exact Hsh|]].
  - apply NoDup_Permutation; [exact Hnd|apply NoDup_seq|].
    intros i. rewrite Hall, elem_of_seq. lia.
  - intros i. unfold responses. rewrite list_lookup_fmap.
    destruct (decide (i ∈ order)) as [Hi|Hi].
    + destruct (Hdone i Hi) as (w & -> & ->); [intros Hin; inversion Hin|]. reflexivity.
    + rewrite (proj2 (lookup_ge_None (threads c) i)).
      * cbn. symmetry. apply eq_None_not_Some. intros Hsome. apply Hi.
        apply (serial_log_order calls m order i). rewrite Hser. exact Hsome.
      * rewrite Hlen. rewrite Hall in Hi. lia.
Qed.

(** No deadlock: while a handler has not returned, some thread can take
    a step. *)
Lemma calls_inv_progress (m : gmap string dollars)
  (calls : list (route * http.Request)) (c : config) :
  calls_inv m calls c -> returned c \/ exists c', step c c'.
Proof.
  intros (order & active & M & log & Hser & Hnd & Hlen & Hwait & Hdone & Hlock).
  destruct Hlock as [(Hsh & Hnda & Hact) |
                     (j & Mcur & pj & wj & wf & _ & _ & Hsh & Hj & Hcs & _)].
  2: { right. destruct (in_critical_section_step pj Mcur wj Hcs) as (p' & db1 & w1 & Hs & _).
       eexists. apply (step_thread c j pj p' wj w1 db1 Hj). rewrite Hsh. exact Hs. }
  destruct active as [|k active].
  - destruct (decide (returned c)) as [Hret|Hret]; [left; exact Hret|right].
    apply not_Forall_Exists in Hret; [|intros t; apply _].
    apply Exists_exists in Hret as ([p w] & Hin & Hnot).
    apply list_elem_of_lookup in Hin as [k Hk].
    destruct (decide (k ∈ order)) as [Hko|Hko].
    { destruct (Hdone k Hko) as (w' & _ & Hth); [intros Hin; inversion Hin|].
      rewrite Hth in Hk. injection Hk as <- <-. cbn in Hnot. congruence. }
    assert (is_Some (calls !! k)) as [cl Hcl].
    { apply lookup_lt_is_Some. rewrite <- Hlen. eapply lookup_lt_Some, Hk. }
    rewrite (Hwait k cl Hcl Hko) in Hk. injection Hk as <- <-.
    pose proof (Hwait k cl Hcl Hko) as Hk.
    destruct (handler_shape cl.1 cl.2) as [(_ & p0 & Hp0 & _) | (_ & p0 & Hp0 & _)];
      rewrite Hp0 in Hk; eexists; eapply (step_thread c k _ _ _ _ _ Hk);
      rewrite Hsh; reflexivity.
  - right. destruct (Hact k) as (_ & p & w0 & w & Hk & Hrs & _); [left|].
    destruct (in_read_section_step p M w0 Hrs) as [(_ & Hs) | (p1 & w1 & _ & Hs)];
      eexists; eapply (step_thread c k _ _ _ _ _ Hk); rewrite Hsh; apply Hs.
Qed.

(** Some schedule lets every handler return: the one that runs the
    threads one after the other. *)
Lemma calls_can_return (calls : list (route * http.Request)) :
  forall (done : list thread) (M : gmap string dollars),
    Forall (fun t : thread => is_Return t.1 = true) done ->
    exists c,
      steps {| shared := idle M;
               threads := done ++ threads (launch_calls (idle M) calls) |} c /\
      returned c.
Proof.
  induction calls as [|cl calls IH]; intros done M Hdone.
  - eexists. split; [apply rtc_refl|].
    unfold returned. cbn. rewrite app_nil_r. exact Hdone.
  - pose proof (serve_call_spec M cl) as Hrun. unfold serve in Hrun.
    destruct (IH (done ++ [(Return, (serve_call M cl).2)]) (serve_call M cl).1)
      as (c & Hsteps & Hret).
    { apply Forall_app. split; [exact Hdone|]. repeat constructor. }
    exists c. split; [|exact Hret].
    eapply rtc_trans; [|exact Hsteps].
    rewrite <- app_assoc. cbn [app fmap list_fmap launch_calls threads].
    match goal with
    | |- rtc step _ {| shared := _; threads := done ++ ?t :: ?rest |} =>
        replace (done ++ t :: rest)
          with (<[length done := t]>
                  (done ++ (handler cl.1 cl.2, http.NewRecorder) :: rest))
    end.
    + apply (run_steps (handler cl.1 cl.2) (idle M) _ http.NewRecorder).
      * apply list_lookup_middle. reflexivity.
      * exact Hrun.
    + rewrite insert_app_r_alt by lia. rewrite Nat.sub_diag. reflexivity.
Qed.

(** Every handler performs at most five operations. *)
Lemma within_handler (r : route) (req : http.Request) : within 5 (handler r req).
Proof.
  destruct r; cbn [handler].
  - unfold price, defer. cbn. constructor. intros _. constructor.
    intros [old|]; repeat (constructor; intros _).
  - apply within_create.
  - unfold update, defer. destruct (strconv.ParseFloat _) as [d [e|]]; cbn.
    + repeat (constructor; intros _).
    + constructor. intros _. constructor.
      intros [old|]; repeat (constructor; intros _).
  - unfold delete, defer. cbn. constructor. intros _. constructor.
    intros [old|]; repeat (constructor; intros _).
Qed.

Lemma calls_terminate (db : database) (calls : list (route * http.Request))
  (n : nat) (c : config) :
  nsteps step n (launch_calls db calls) c -> (n <= 5 * length calls)%nat.
Proof.
  intros Hsteps.
  pose proof (nsteps_budgets n _ c Hsteps (replicate (length calls) 5%nat)) as Hn.
  rewrite sum_list_replicate in Hn. rewrite Nat.mul_comm. apply Hn.
  unfold budgets, launch_calls. cbn [threads].
  apply Forall2_fmap_l, Forall2_replicate_r; [reflexivity|].
  apply Forall_forall. intros [r req] _. apply within_handler.
Qed.

(** While a thread is about to write the map, it is the one thread that
    holds the mutex: every other thread has returned or is about to take
    a lock. *)
Lemma calls_inv_exclusive (m : gmap string dollars)
  (calls : list (route * http.Request)) (c : config)
  (i j : nat) (p q : prog) (w w' : http.ResponseWriter) (o : op) :
  calls_inv m calls c ->
  threads c !! i = Some (p, w) -> threads c !! j = Some (q, w') -> i <> j ->
  next_op p = Some o -> writes_map o = true ->
  writer (mutex (shared c)) = true /\
  readers (mutex (shared c)) = O /\
  (next_op q = None \/ next_op q = Some OpLock \/ next_op q = Some OpRLock).
Proof.
  intros (order & active & M & log & Hser & Hnd & Hlen & Hwait & Hdone & Hlock)
    Hi Hj Hne Ho Hw.
  assert (forall k r w0, threads c !! k = Some (r, w0) -> k ∉ active ->
            next_op r = None \/ next_op r = Some OpLock \/ next_op r = Some OpRLock)
    as Hidle.
  { intros k r w0 Hk Hka. destruct (decide (k ∈ order)) as [Hko|Hko].
    - destruct (Hdone k Hko Hka) as (wk & _ & Hth).
      rewrite Hth in Hk. injection Hk as <- <-. left. reflexivity.
    - assert (is_Some (calls !! k)) as [cl Hcl].
      { apply lookup_lt_is_Some. rewrite <- Hlen. eapply lookup_lt_Some, Hk. }
      rewrite (Hwait k cl Hcl Hko) in Hk. injection Hk as <- <-.
      destruct (handler_shape cl.1 cl.2) as [(_ & p0 & -> & _) | (_ & p0 & -> & _)];
        right; [right|left]; reflexivity. }
  assert (i ∈ active) as Hia.
  { destruct (decide (i ∈ active)) as [|Hno]; [assumption|exfalso].
    destruct (Hidle i p w Hi Hno) as [Hn|[Hn|Hn]]; rewrite Hn in Ho;
      [discriminate Ho| |]; injection Ho as <-; discriminate Hw. }
  destruct Hlock as [(Hsh & Hnda & Hact) |
                     (j0 & Mcur & pj & wj & wf & -> & _ & Hsh & _)].
  - exfalso. destruct (Hact i Hia) as (_ & p0 & w0 & wf & Hi' & Hrs & _).
    rewrite Hi in Hi'. injection Hi' as <- <-.
    destruct Hrs as [|o' k Ho' _]; cbn in Ho; injection Ho as <-;
      [discriminate Hw|]. destruct o'; discriminate.
  - rewrite Hsh. split; [reflexivity|]. split; [reflexivity|].
    apply list_elem_of_singleton in Hia. subst j0.
    apply (Hidle j q w' Hj). rewrite list_elem_of_singleton. congruence.
Qed.

End CallsOutcome.

Section SerialResponses.
Context `{UnicodeTables}.

Lemma serial_step_other (calls : list (route * http.Request)) (l : list nat) (i : nat) :
  forall st, i ∉ l ->
    (foldl (serial_step calls) st l).2 !! i = st.2 !! i.
Proof.
  induction l as [|k l IH]; intros st Hi; [reflexivity|].
  apply not_elem_of_cons in Hi as [Hik Hi]. cbn [foldl]. rewrite IH by exact Hi.
  unfold serial_step. destruct (calls !! k); [|reflexivity].
  cbn [snd]. apply lookup_insert_ne. congruence.
Qed.

(** The response of a call in a serial run is the response [serve] gives
    on the store left by the calls before it. *)
Lemma serial_response (calls : list (route * http.Request)) (m : gmap string dollars)
  (order : list nat) (k i : nat) (cl : route * http.Request) :
  NoDup order -> order !! k = Some i -> calls !! i = Some cl ->
  (serial calls m order).2 !! i
    = Some (serve_call (serial calls m (take k order)).1 cl).2.
Proof.
  intros Hnd Hk Hcl.
  rewrite <- (take_drop_middle order k i Hk) in Hnd.
  apply NoDup_app in Hnd as (_ & _ & Hnd). apply NoDup_cons in Hnd as [Hi _].
  rewrite <- (take_drop_middle order k i Hk) at 1.
  unfold serial. rewrite foldl_app. cbn [foldl].
  rewrite serial_step_other by exact Hi.
  unfold serial_step. rewrite Hcl. cbn [snd]. apply lookup_insert_eq.
Qed.

End SerialResponses.

(** X9. Serializability. Launch one thread per call, for any calls of
    [price], [create], [update] and [delete], on any store. Whenever all
    threads have returned, there is an order of the calls (the order in
    which the threads took the mutex) such that the store is the one
    that serving the calls one after the other in that order leaves, and
    every call has the response it gets in that sequential run: the
    response of [serve] on the store left by the calls before it. *)
Theorem concurrent_calls_serializable `{UnicodeTables}
  (m : gmap string dollars) (calls : list (route * http.Request)) (c : config) :
  steps (launch_calls (idle m) calls) c -> returned c ->
  exists order : list nat,
    order ≡ₚ List.seq 0 (length calls) /\
    serve_all (pick calls order) (idle m) = Some (shared c) /\
    shared c = idle (serial calls m order).1 /\
    length (responses c) = length calls /\
    (forall i, responses c !! i = (serial calls m order).2 !! i) /\
    (forall k i cl, order !! k = Some i -> calls !! i = Some cl ->
       responses c !! i
         = Some (serve_call (serial calls m (take k order)).1 cl).2).
Proof.
  intros Hsteps Hret.
  pose proof (calls_inv_steps m calls _ c (calls_inv_launch m calls) Hsteps) as Hinv.
  assert (length (responses c) = length calls) as Hlen.
  { destruct Hinv as (? & ? & ? & ? & _ & _ & Hlen & _).
    unfold responses. rewrite length_fmap. exact Hlen. }
  destruct (calls_inv_returned m calls c Hinv Hret) as (order & Hperm & Hsh & Hresp).
  exists order. split; [exact Hperm|].
  split; [rewrite Hsh; apply serve_all_pick|]. split; [exact Hsh|].
  split; [exact Hlen|]. split; [exact Hresp|].
  intros k i cl Hk Hcl. rewrite Hresp. apply serial_response; [|exact Hk|exact Hcl].
  rewrite Hperm. apply NoDup_seq.
Qed.

Lemma concurrent_calls_serializable_witness :
  let calls := [(RouteDelete, request [("item", "socks")]);
                (RoutePrice, request [("item", "socks")])] in
  let c := {| shared := idle (base.delete "socks" (items main_db));
              threads := [(Return, Deleted "socks");
                          (Return, @NotFound latin1_tables "socks")] |} in
  exists order : list nat,
    order ≡ₚ [0; 1]%nat /\
    serve_all (H := latin1_tables) (pick calls order) main_db = Some (shared c) /\
    responses c = [Deleted "socks"; @NotFound latin1_tables "socks"].
Proof.
  intros calls c.
  destruct (@concurrent_calls_serializable latin1_tables (items main_db) calls c)
    as (order & Hperm & Hall & _).
  - eapply rtc_trans.
    + apply (run_steps (@delete latin1_tables (request [("item", "socks")]))
               main_db (shared c) http.NewRecorder (Deleted "socks")
               (threads (@launch_calls latin1_tables main_db calls)) 0%nat eq_refl).
      change (serve (@delete latin1_tables) (idle (items main_db))
                (request [("item", "socks")]) = Some (shared c, Deleted "socks")).
      rewrite serve_delete. reflexivity.
    + apply (run_steps (@price latin1_tables (request [("item", "socks")]))
               (shared c) (shared c) http.NewRecorder (@NotFound latin1_tables "socks")
               [(Return, Deleted "socks");
                (@price latin1_tables (request [("item", "socks")]), http.NewRecorder)]
               1%nat eq_refl).
      change (serve (@price latin1_tables) (idle (base.delete "socks" (items main_db)))
                (request [("item", "socks")])
              = Some (shared c, @NotFound latin1_tables "socks")).
      rewrite serve_price. reflexivity.
  - repeat constructor.
  - exists order. split; [exact Hperm|]. split; [exact Hall|reflexivity].
Defined.

(** X10. Any mix of concurrent calls completes: some schedule lets every
    handler return, every schedule ends within [5 * N] steps for [N]
    calls, and no reachable state is a deadlock: while a handler has not
    returned, some thread can take a step. *)
Theorem concurrent_calls_complete `{UnicodeTables}
  (m : gmap string dollars) (calls : list (route * http.Request)) :
  (exists c, steps (launch_calls (idle m) calls) c /\ returned c) /\
  (forall k c, nsteps step k (launch_calls (idle m) calls) c ->
     (k <= 5 * length calls)%nat) /\
  (forall c, steps (launch_calls (idle m) calls) c ->
     returned c \/ exists c', step c c').
Proof.
  split; [|split].
  - apply (calls_can_return calls [] m). constructor.
  - intros k c. apply calls_terminate.
  - intros c Hsteps. apply (calls_inv_progress m calls).
    apply (calls_inv_steps m calls _ c (calls_inv_launch m calls) Hsteps).
Qed.

(** X11. No data race on the map. In every state that concurrent calls
    can reach, a thread that is about to write the map ([db.items[item] =
    price] or [delete(db.items, item)]) holds the mutex as the writer, no
    reader holds it, and every other thread has returned or is about to
    take a lock: no other thread is about to read or write the map. *)
Theorem map_writes_are_exclusive `{UnicodeTables}
  (m : gmap string dollars) (calls : list (route * http.Request)) (c : config)
  (i j : nat) (p q : prog) (w w' : http.ResponseWriter) (o : op) :
  steps (launch_calls (idle m) calls) c ->
  threads c !! i = Some (p, w) -> threads c !! j = Some (q, w') -> i <> j ->
  next_op p = Some o -> writes_map o = true ->
  writer (mutex (shared c)) = true /\
  readers (mutex (shared c)) = O /\
  (next_op q = None \/ next_op q = Some OpLock \/ next_op q = Some OpRLock) /\
  (forall o', next_op q = Some o' -> accesses_map o' = false).
Proof.
  intros Hsteps Hi Hj Hne Ho Hw.
  pose proof (calls_inv_steps m calls _ c (calls_inv_launch m calls) Hsteps) as Hinv.
  destruct (calls_inv_exclusive m calls c i j p q w w' o Hinv Hi Hj Hne Ho Hw)
    as (Hwr & Hrd & Hq).
  split; [exact Hwr|]. split; [exact Hrd|]. split; [exact Hq|].
  intros o' Ho'. destruct Hq as [Hq|[Hq|Hq]]; rewrite Hq in Ho';
    [discriminate Ho'| |]; injection Ho' as <-; reflexivity.
Qed.

Lemma map_writes_are_exclusive_witness :
  let calls := [(RouteUpdate, request [("item", "shoes"); ("price", "45")]);
                (RoutePrice, request [("item", "shoes")])] in
  exists (c : config) (p q : prog) (w w' : http.ResponseWriter),
    steps (@launch_calls latin1_tables main_db calls) c /\
    threads c !! 0%nat = Some (p, w) /\
    threads c !! 1%nat = Some (q, w') /\
    next_op p = Some (OpStore "shoes" (float32.of_Z 45)) /\
    writer (mutex (shared c)) = true /\
    next_op q = Some OpRLock.
Proof.
  intros calls.
  assert (exists c p q w w',
            steps (@launch_calls latin1_tables main_db calls) c /\
            threads c !! 0%nat = Some (p, w) /\
            threads c !! 1%nat = Some (q, w') /\
            next_op p = Some (OpStore "shoes" (float32.of_Z 45)) /\
            next_op q = Some OpRLock)
    as (c & p & q & w & w' & Hsteps & Hp & Hq & Hop & Hoq).
  { do 5 eexists. split.
    - eapply rtc_l.
      { eapply (step_thread _ 0%nat); [reflexivity|reflexivity]. }
      eapply rtc_l.
      { eapply (step_thread _ 0%nat); [reflexivity|reflexivity]. }
      apply rtc_refl.
    - cbn. split; [reflexivity|]. split; [reflexivity|]. split; reflexivity. }
  exists c, p, q, w, w'.
  destruct (@map_writes_are_exclusive latin1_tables (items main_db) calls c
              0%nat 1%nat p q w w' _ Hsteps Hp Hq ltac:(discriminate) Hop eq_refl)
    as (Hwr & _).
  auto 10.
Defined.

(** * Consequences of serializability *)

Section ConcurrentReads.
Context `{UnicodeTables}.

Lemma pick_elem_of (calls : list (route * http.Request)) (l : list nat)
  (cl : route * http.Request) :
  cl ∈ pick calls l -> cl ∈ calls.
Proof.
  unfold pick. rewrite list_elem_of_omap. intros (i & _ & Hi).
  eapply list_elem_of_lookup_2, Hi.
Qed.

(** The store that a serial run of some of the calls leaves holds only
    prices of the start and prices set by the calls. *)
Lemma serial_provenance (calls : list (route * http.Request))
  (m : gmap string dollars) (l : list nat) (n : string) (d : dollars) :
  (serial calls m l).1 !! n = Some d ->
  m !! n = Some d \/ exists cl, cl ∈ calls /\ sets_price cl n d.
Proof.
  intros Hn.
  destruct (serve_all_provenance (pick calls l) m) as (m' & Hall & Hval & _).
  rewrite (serve_all_pick calls l m ∅) in Hall. injection Hall as Hm'.
  fold (serial calls m l) in Hm'. rewrite Hm' in Hn.
  destruct (Hval n d Hn) as [Hold|(cl & Hin & Hset)]; [auto|].
  right. exists cl. split; [eapply pick_elem_of, Hin|exact Hset].
Qed.

End ConcurrentReads.

(** X12. A reader never sees a price that nobody set. Among any
    concurrent calls, when all have returned, every [price] call has
    answered either [NotFound] for its name, or 200 with a price that is
    the price its name had at the start or the parsed price text of a
    [create] or [update] call for that name among the calls. *)
Theorem concurrent_price_is_a_set_price `{UnicodeTables}
  (m : gmap string dollars) (calls : list (route * http.Request)) (c : config)
  (i : nat) (req : http.Request) :
  steps (launch_calls (idle m) calls) c -> returned c ->
  calls !! i = Some (RoutePrice, req) ->
  responses c !! i = Some (NotFound (item_of req)) \/
  exists d,
    responses c !! i = Some (Price d) /\
    (m !! item_of req = Some d \/
     exists cl, cl ∈ calls /\ sets_price cl (item_of req) d).
Proof.
  intros Hsteps Hret Hi.
  pose proof (calls_inv_steps m calls _ c (calls_inv_launch m calls) Hsteps) as Hinv.
  destruct (calls_inv_returned m calls c Hinv Hret) as (order & Hperm & Hsh & Hresp).
  assert (i ∈ order) as Hin.
  { rewrite Hperm, elem_of_seq. apply lookup_lt_Some in Hi. lia. }
  apply list_elem_of_lookup in Hin as [k Hk].
  assert (NoDup order) as Hnd by (rewrite Hperm; apply NoDup_seq).
  rewrite Hresp, (serial_response calls m order k i _ Hnd Hk Hi).
  unfold serve_call. cbn [fst snd handler]. rewrite serve_price. cbn [snd].
  destruct ((serial calls m (take k order)).1 !! item_of req) as [d|] eqn:Hd.
  - right. exists d. split; [reflexivity|].
    eapply serial_provenance, Hd.
  - left. reflexivity.
Qed.

Lemma concurrent_price_is_a_set_price_witness :
  let calls := [(RouteDelete, request [("item", "socks")]);
                (RoutePrice, request [("item", "socks")])] in
  let c := {| shared := idle (base.delete "socks" (items main_db));
              threads := [(Return, Deleted "socks");
                          (Return, @NotFound latin1_tables "socks")] |} in
  responses c !! 1%nat = Some (@NotFound latin1_tables "socks") \/
  exists d,
    responses c !! 1%nat = Some (Price d) /\
    (items main_db !! "socks" = Some d \/
     exists cl, cl ∈ calls /\ sets_price cl "socks" d).
Proof.
  intros calls c.
  apply (@concurrent_price_is_a_set_price latin1_tables (items main_db) calls c
           1%nat (request [("item", "socks")])).
  - eapply rtc_trans.
    + apply (run_steps (@delete latin1_tables (request [("item", "socks")]))
               main_db (shared c) http.NewRecorder (Deleted "socks")
               (threads (@launch_calls latin1_tables main_db calls)) 0%nat eq_refl).
      change (serve (@delete latin1_tables) (idle (items main_db))
                (request [("item", "socks")]) = Some (shared c, Deleted "socks")).
      rewrite serve_delete. reflexivity.
    + apply (run_steps (@price latin1_tables (request [("item", "socks")]))
               (shared c) (shared c) http.NewRecorder (@NotFound latin1_tables "socks")
               [(Return, Deleted "socks");
                (@price latin1_tables (request [("item", "socks")]), http.NewRecorder)]
               1%nat eq_refl).
      change (serve (@price latin1_tables) (idle (base.delete "socks" (items main_db)))
                (request [("item", "socks")])
              = Some (shared c, @NotFound latin1_tables "socks")).
      rewrite serve_price. reflexivity.
  - repeat constructor.
  - reflexivity.
Defined.

Section ConcurrentDeletes.
Context `{UnicodeTables}.

Lemma launch_deletes (db : database) (reqs : list http.Request) :
  launch delete db reqs
    = launch_calls db ((fun req => (RouteDelete, req)) <$> reqs).
Proof.
  unfold launch, launch_calls. f_equal. rewrite <- list_fmap_compose. reflexivity.
Qed.

Lemma calls_inv_length (m : gmap string dollars)
  (calls : list (route * http.Request)) (c : config) :
  calls_inv m calls c -> length (responses c) = length calls.
Proof.
  intros (? & ? & ? & ? & _ & _ & Hlen & _).
  unfold responses. rewrite length_fmap. exact Hlen.
Qed.

(** Once the name is gone, deletes of it fail and change nothing. *)
Lemma serial_deletes_absent (n : string) (reqs : list http.Request) (l : list nat) :
  deletes_of n reqs ->
  forall st : gmap string dollars * gmap nat http.ResponseWriter,
    st.1 !! n = None ->
    (foldl (serial_step ((fun req => (RouteDelete, req)) <$> reqs)) st l).1 = st.1 /\
    forall k, k ∈ l -> (k < length reqs)%nat ->
      (foldl (serial_step ((fun req => (RouteDelete, req)) <$> reqs)) st l).2 !! k
        = Some (NotFound n).
Proof.
  intros Hreqs. unfold deletes_of in Hreqs. rewrite Forall_lookup in Hreqs.
  induction l as [|k l IH]; intros st Hn.
  - split; [reflexivity|]. intros k Hk. inversion Hk.
  - cbn [foldl].
    assert (exists st1, serial_step ((fun req => (RouteDelete, req)) <$> reqs) st k = st1 /\
              st1.1 = st.1 /\
              ((k < length reqs)%nat -> st1.2 !! k = Some (NotFound n)))
      as (st1 & -> & Hst1 & Hk1).
    { eexists. split; [reflexivity|].
      unfold serial_step. rewrite list_lookup_fmap.
      destruct (reqs !! k) as [req|] eqn:Hreq; cbn [fmap option_fmap option_map].
      - unfold serve_call. cbn [fst snd handler].
        rewrite serve_delete, (Hreqs k req Hreq), Hn. cbn [fst snd items idle].
        split; [reflexivity|]. intros _. apply lookup_insert_eq.
      - split; [reflexivity|]. intros Hlt. apply lookup_ge_None in Hreq. lia. }
    destruct (IH st1) as [Hstore Hlog]; [rewrite Hst1; exact Hn|].
    split; [rewrite Hstore; exact Hst1|].
    intros k' Hk' Hlt. destruct (decide (k' ∈ l)) as [Hin|Hin]; [auto|].
    apply elem_of_cons in Hk' as [->|Hk']; [|contradiction].
    rewrite serial_step_other by exact Hin. auto.
Qed.

(** The serial runs of deletes of one name that is in the store: the
    first delete succeeds, every other fails with [NotFound], and the
    name is gone. *)
Lemma serial_deletes (m : gmap string dollars) (n : string)
  (reqs : list http.Request) (i : nat) (rest : list nat) :
  deletes_of n reqs -> is_Some (m !! n) ->
  (i < length reqs)%nat -> i ∉ rest ->
  (serial ((fun req => (RouteDelete, req)) <$> reqs) m (i :: rest)).1
    = base.delete n m /\
  (serial ((fun req => (RouteDelete, req)) <$> reqs) m (i :: rest)).2 !! i
    = Some (Deleted n) /\
  forall k, k ∈ rest -> (k < length reqs)%nat ->
    (serial ((fun req => (RouteDelete, req)) <$> reqs) m (i :: rest)).2 !! k
      = Some (NotFound n).
Proof.
  intros Hreqs [old Hold] Hi Hrest.
  apply lookup_lt_is_Some in Hi as [req Hreq].
  assert (item_of req = n) as Hitem.
  { unfold deletes_of in Hreqs. rewrite Forall_lookup in Hreqs. eauto. }
  unfold serial. cbn [foldl].
  assert (serial_step ((fun req => (RouteDelete, req)) <$> reqs) (m, ∅) i
            = (base.delete n m, <[i := Deleted n]> ∅)) as ->.
  { unfold serial_step. rewrite list_lookup_fmap, Hreq.
    cbn [fmap option_fmap option_map]. unfold serve_call. cbn [fst snd handler].
    rewrite serve_delete, Hitem, Hold. reflexivity. }
  destruct (serial_deletes_absent n reqs rest Hreqs
              (base.delete n m, <[i := Deleted n]> ∅)) as [Hstore Hlog].
  { apply lookup_delete_eq. }
  split; [exact Hstore|]. split; [|exact Hlog].
  rewrite serial_step_other by exact Hrest. apply lookup_insert_eq.
Qed.

End ConcurrentDeletes.

(** X13. Concurrent deletes of one name. Launch one [delete] per
    request, for [N >= 1] requests that all name [n], a name that is in
    the store. Some schedule lets all threads return, and whenever all
    have returned exactly one has succeeded, the [N - 1] others have
    failed with [NotFound], and the store is the store of the start
    without [n]. *)
Theorem concurrent_deletes `{UnicodeTables}
  (m : gmap string dollars) (n : string) (reqs : list http.Request) :
  reqs <> [] ->
  is_Some (m !! n) ->
  deletes_of n reqs ->
  (exists c, steps (launch delete (idle m) reqs) c /\ returned c) /\
  (forall c, steps (launch delete (idle m) reqs) c -> returned c ->
     shared c = idle (base.delete n m) /\
     (exists i : nat,
        (i < length reqs)%nat /\
        responses c = (<[i := Deleted n]> (replicate (length reqs) (NotFound n)))) /\
     count_code http.StatusOK (responses c) = 1%nat /\
     count_code http.StatusNotFound (responses c) = (length reqs - 1)%nat).
Proof.
  intros Hne Hin Hreqs. rewrite launch_deletes. split.
  { apply (calls_can_return _ [] m). constructor. }
  intros c Hsteps Hret.
  pose proof (calls_inv_steps m _ _ c (calls_inv_launch m _) Hsteps) as Hinv.
  pose proof (calls_inv_length m _ c Hinv) as Hlen. rewrite length_fmap in Hlen.
  destruct (calls_inv_returned m _ c Hinv Hret) as (order & Hperm & Hsh & Hresp).
  rewrite length_fmap in Hperm.
  assert (NoDup order) as Hnd by (rewrite Hperm; apply NoDup_seq).
  assert (forall k, k ∈ order <-> (k < length reqs)%nat) as Hall.
  { intros k. rewrite Hperm, elem_of_seq. lia. }
  destruct order as [|i rest].
  { destruct reqs as [|req reqs']; [congruence|].
    apply Permutation_nil_l in Hperm. discriminate Hperm. }
  apply NoDup_cons in Hnd as [Hirest _].
  assert (i < length reqs)%nat as Hi by (apply Hall; left).
  destruct (serial_deletes m n reqs i rest Hreqs Hin Hi Hirest)
    as (Hstore & Hlogi & Hlog).
  rewrite Hstore in Hsh.
  assert (responses c = <[i := Deleted n]> (replicate (length reqs) (NotFound n)))
    as Hlist.
  { apply list_eq. intros k. rewrite Hresp.
    destruct (decide (k = i)) as [->|Hk].
    - rewrite Hlogi, list_lookup_insert_eq by (rewrite length_replicate; exact Hi).
      reflexivity.
    - rewrite list_lookup_insert_ne by congruence.
      destruct (decide (k < length reqs)%nat) as [Hlt|Hge].
      + rewrite lookup_replicate_2 by exact Hlt. apply Hlog; [|exact Hlt].
        apply Hall in Hlt. apply elem_of_cons in Hlt as [|]; [congruence|assumption].
      + rewrite <- Hresp.
        rewrite (proj2 (lookup_ge_None (responses c) k)) by lia.
        symmetry. apply lookup_ge_None. rewrite length_replicate. lia. }
  split; [exact Hsh|]. split; [exists i; auto|].
  rewrite Hlist, !count_code_insert by exact Hi.
  split; reflexivity.
Qed.

Lemma concurrent_deletes_witness :
  let reqs := [request [("item", "socks")]; request [("item", "socks")]] in
  let c0 := launch (@delete latin1_tables) main_db reqs in
  (exists c, steps c0 c /\ returned c) /\
  (forall c, steps c0 c -> returned c ->
     shared c = idle (base.delete "socks" (items main_db)) /\
     (exists i : nat,
        (i < length reqs)%nat /\
        responses c
          = (<[i := Deleted "socks"]>
               (replicate (length reqs) (@NotFound latin1_tables "socks")))) /\
     count_code 200 (responses c) = 1%nat /\
     count_code 404 (responses c) = (length reqs - 1)%nat).
Proof.
  intros reqs c0.
  apply (@concurrent_deletes latin1_tables (items main_db) "socks" reqs).
  - discriminate.
  - exists (float32.of_Z 5). reflexivity.
  - repeat constructor.
Defined.

(** * Whole prices *)

Section WholePrices.

Lemma round_nearest_even_down (mrs : shr_record) :
  shr_r mrs = false ->
  round_nearest_even (shr_m mrs) (loc_of_shr_record mrs) = shr_m mrs.
Proof.
  destruct mrs as [mm r s]. cbn [shr_r shr_m]. intros ->. destruct s; reflexivity.
Qed.

Lemma pow2_split (a b : Z) : 0 <= a -> 0 <= b -> 2 ^ a * 2 ^ b = 2 ^ (a + b).
Proof. intros Ha Hb. symmetry. apply Z.pow_add_r; assumption. Qed.

(** Scaling a number of [d] binary digits to [k] digits. *)
Lemma Zdigits2_scaled (n k : Z) :
  0 < n -> Zdigits2 n <= k ->
  2 ^ (k - 1) <= n * 2 ^ (k - Zdigits2 n) < 2 ^ k.
Proof.
  intros Hn Hk. destruct (Zdigits2_bounds n Hn) as [[Hlo Hhi] Hd].
  set (d := Zdigits2 n) in *.
  assert (0 < 2 ^ (k - d)) as HP by (apply Z.pow_pos_nonneg; lia).
  pose proof (pow2_split (d - 1) (k - d) ltac:(lia) ltac:(lia)) as H1.
  pose proof (pow2_split d (k - d) ltac:(lia) ltac:(lia)) as H2.
  replace (d - 1 + (k - d)) with (k - 1) in H1 by lia.
  replace (d + (k - d)) with k in H2 by lia.
  rewrite <- H1, <- H2. split.
  - apply Z.mul_le_mono_nonneg_r; lia.
  - apply Z.mul_lt_mono_pos_r; lia.
Qed.

(** A whole number below [2^24] is a binary32 number: rounding keeps
    it. *)
Lemma round_ratio_whole (n : Z) :
  0 < n < 2 ^ 24 ->
  exists (mm : positive) (e : Z),
    float32.round_ratio false n 1 = S754_finite false mm e /\
    e <= 0 /\ Z.pos mm = n * 2 ^ (- e).
Proof.
  intros [Hn Hlt].
  destruct (Zdigits2_bounds n Hn) as [[Hlo Hhi] Hd0].
  set (d := Zdigits2 n) in *.
  assert (d <= 24) as Hd.
  { destruct (Z_lt_le_dec 24 d) as [Hgt|]; [|assumption].
    assert (2 ^ 24 <= 2 ^ (d - 1)) by (apply Z.pow_le_mono_r; lia). lia. }
  remember (n * 2 ^ (25 - d)) as q eqn:Hqdef.
  remember (n * 2 ^ (24 - d)) as mm eqn:Hmmdef.
  assert (q = mm * 2) as Hq.
  { subst q mm. replace (25 - d) with (24 - d + 1) by lia.
    rewrite Z.pow_add_r by lia. change (2 ^ 1) with 2. lia. }
  pose proof (Zdigits2_scaled n 24 Hn Hd) as Hmm. fold d in Hmm.
  rewrite <- Hmmdef in Hmm.
  change (24 - 1) with 23 in Hmm.
  assert (Zdigits2 mm = 24) as Hdmm by (apply Zdigits2_unique; [exact Hmm|lia]).
  assert (Zdigits2 q = 25) as Hdq.
  { apply Zdigits2_unique; [|lia]. change (25 - 1) with 24.
    change (2 ^ 25) with (2 ^ 24 * 2). change (2 ^ 24) with (2 ^ 23 * 2) at 1. lia. }
  assert (0 < q) as Hqpos by lia.
  assert (0 < mm) as Hmmpos by lia.
  assert (SFdiv_core_binary float32.prec float32.emax n 0 1 0
            = (q, d - 25, loc_Exact)) as Hdiv.
  { unfold SFdiv_core_binary, fexp, emin, float32.prec, float32.emax.
    change (Zdigits2 1) with 1. fold d.
    replace (Z.min (Z.max (d + 0 - (1 + 0) - 24) (3 - 128 - 24)) (0 - 0))
      with (d - 25) by lia.
    replace (0 - 0 - (d - 25)) with (25 - d) by lia.
    assert (exists s, 25 - d = Z.pos s) as [s Hs].
    { destruct (25 - d) as [|s|s] eqn:Hs; try lia. eauto. }
    rewrite Hs. cbv iota. rewrite <- Hs.
    rewrite Z.shiftl_mul_pow2 by lia. rewrite <- Hqdef.
    pose proof (Z_div_mod q 1 ltac:(lia)) as Hdm.
    destruct (Z.div_eucl q 1) as [q' r']. destruct Hdm as [Hq' Hr'].
    assert (q' = q) as -> by lia. assert (r' = 0) as -> by lia. reflexivity. }
  destruct (shr_fexp_normal q (d - 25) loc_Exact Hqpos) as (mrs1 & Hs1 & Hm1 & Hr1);
    rewrite ?Hdq; try lia.
  rewrite Hdq in Hs1, Hm1, Hr1. change (25 - 24) with 1 in Hs1, Hm1.
  change (2 ^ 1) with 2 in Hm1.
  assert (shr_m mrs1 = mm) as Hm1v.
  { rewrite Hm1, Hq. apply Z.div_mul. lia. }
  assert (shr_r mrs1 = false) as Hr1v.
  { rewrite Hr1 by lia. change (25 - 25) with 0. rewrite Z.bit0_odd, Hq.
    rewrite Z.odd_mul. apply andb_false_r. }
  destruct (shr_fexp_normal mm (d - 25 + 1) loc_Exact Hmmpos) as (mrs2 & Hs2 & Hm2 & _);
    rewrite ?Hdmm; try lia.
  rewrite Hdmm in Hs2, Hm2. change (24 - 24) with 0 in Hs2, Hm2.
  rewrite Z.div_1_r in Hm2.
  unfold float32.round_ratio. replace (n =? 0) with false by lia.
  rewrite Hdiv. unfold binary_round_aux.
  rewrite Hs1, (round_nearest_even_down mrs1 Hr1v), Hm1v, Hs2, Hm2.
  destruct mm as [|p|p]; try lia.
  unfold float32.emax, float32.prec.
  replace (d - 25 + 1 + 0 <=? 128 - 24) with true by lia.
  exists p, (d - 25 + 1 + 0). split; [reflexivity|]. split; [lia|].
  rewrite Hmmdef. f_equal. f_equal. lia.
Qed.

Lemma hundredths_whole (mm : positive) (e n : Z) :
  e <= 0 -> Z.pos mm = n * 2 ^ (- e) ->
  strconv.hundredths (Z.pos mm) e = 100 * n.
Proof.
  intros He Hmm. unfold strconv.hundredths.
  assert (0 < 2 ^ (- e)) as HP by (apply Z.pow_pos_nonneg; lia).
  destruct (0 <=? e) eqn:Hle.
  - assert (e = 0) as -> by lia. rewrite Hmm. change (2 ^ (- 0)) with 1.
    change (2 ^ 0) with 1. lia.
  - unfold strconv.round_half_even. rewrite Hmm, Z.mul_assoc.
    rewrite Z.mod_mul, Z.div_mul by lia.
    change (2 * 0) with 0.
    destruct (Z.compare_spec 0 (2 ^ (- e))); [lia|reflexivity|lia].
Qed.

Lemma fixed2_whole (n : Z) :
  strconv.fixed2 (100 * n) = strconv.decimal n +:+ ".00".
Proof.
  unfold strconv.fixed2.
  rewrite (Z.mul_comm 100 n), Z.div_mul, Z.mod_mul by lia.
  replace (n * 100 mod 10) with 0; [reflexivity|].
  symmetry. replace (n * 100) with (n * 10 * 10) by lia. apply Z.mod_mul. lia.
Qed.

(** A whole price is displayed with two zeros after the point. *)
Lemma String_whole (mm : positive) (e n : Z) :
  e <= 0 -> Z.pos mm = n * 2 ^ (- e) ->
  String_ (S754_finite false mm e) = "$" +:+ strconv.decimal n +:+ ".00".
Proof.
  intros He Hmm. unfold String_, fmt.fmtFloat, strconv.FormatFloat.
  rewrite (hundredths_whole mm e n He Hmm), fixed2_whole, append_nil.
  destruct (decimal_digits n) as (c & s & -> & Hc & _).
  destruct (digit_char_not_punct c Hc) as (Hm & Hp & HI & HN & _).
  rewrite !append_cons. rewrite Hm, Hp. cbn [orb].
  rewrite ?append_cons, ?append_nil. rewrite HI, HN. reflexivity.
Qed.

End WholePrices.

Section ParseWhole.
Import strconv.

Lemma read_mantissa_digit (c : Z) (s : list Z) (dot dig und : bool) (k d m : Z) :
  is_digit c = true ->
  read_mantissa 10 (c :: s) (MantState dot dig und k d m)
    = if (c =? 48) && (k =? 0)
      then read_mantissa 10 s (MantState dot true und k (d - 1) m)
      else read_mantissa 10 s (MantState dot true und (k + 1) d (m * 10 + (c - 48))).
Proof.
  intros Hc. cbn [read_mantissa]. rewrite Hc. unfold is_digit in Hc.
  change (byte_code "0") with 48 in *. change (byte_code "9") with 57 in *.
  change (byte_code "_") with 95. change (byte_code ".") with 46.
  replace (c =? 95) with false by lia. replace (c =? 46) with false by lia.
  reflexivity.
Qed.

Ltac digit_code :=
  repeat match goal with
         | |- context [byte_code ?c] =>
             let v := eval vm_compute in (byte_code c) in
             change (byte_code c) with v
         end.

(** The mantissa loop on the digits of a number, after a first digit
    that is not zero. *)
Lemma read_mantissa_acc (u : Decimal.uint) :
  forall (k d : Z) (acc : positive),
    0 < k ->
    exists k',
      0 < k' /\
      read_mantissa 10 (bytes (NilEmpty.string_of_uint u))
        (MantState false true false k d (Z.pos acc))
      = (MantState false true false k' d (Z.pos (Pos.of_uint_acc u acc)), []).
Proof.
  induction u as [|u IH|u IH|u IH|u IH|u IH|u IH|u IH|u IH|u IH|u IH];
    intros k d acc Hk;
    cbn [NilEmpty.string_of_uint Pos.of_uint_acc];
    [exists k; split; [exact Hk|reflexivity]|..];
    rewrite bytes_cons, read_mantissa_digit by reflexivity;
    replace (k =? 0) with false by lia; rewrite andb_false_r;
    match goal with
    | |- context [Pos.of_uint_acc u ?p] =>
        destruct (IH (k + 1) d p ltac:(lia)) as (k' & Hk' & Heq);
        exists k'; split; [exact Hk'|]; rewrite <- Heq;
        do 2 f_equal; digit_code; lia
    end.
Qed.

(** The mantissa loop on the digits of a number: it reads the number. *)
Lemma read_mantissa_whole (u : Decimal.uint) :
  forall (dig : bool) (d : Z),
    exists (dig' : bool) (k' d' : Z),
      read_mantissa 10 (bytes (NilEmpty.string_of_uint u))
        (MantState false dig false 0 d 0)
      = (MantState false dig' false k' d' (Z.of_N (Pos.of_uint u)), []) /\
      (dig = true \/ u <> Decimal.Nil -> dig' = true).
Proof.
  induction u as [|u IH|u IH|u IH|u IH|u IH|u IH|u IH|u IH|u IH|u IH];
    intros dig d; cbn [NilEmpty.string_of_uint Pos.of_uint].
  1: { exists dig, 0, d. split; [reflexivity|].
       intros [Hd|Hn]; [exact Hd|congruence]. }
  1: { rewrite bytes_cons, read_mantissa_digit by reflexivity.
       digit_code. cbn [Z.eqb andb].
       destruct (IH true (d - 1)) as (dig' & k' & d' & Heq & Hdig).
       exists dig', k', d'. split; [exact Heq|]. intros _. apply Hdig. left. reflexivity. }
  all: rewrite bytes_cons, read_mantissa_digit by reflexivity; digit_code;
      match goal with
      | |- context [Pos.of_uint_acc ?v ?p] =>
          destruct (read_mantissa_acc v (0 + 1) d p ltac:(lia)) as (k' & _ & Heq)
      end;
      exists true, k', d; split; [exact Heq|reflexivity].
Qed.

Lemma uint_bytes_digits (u : Decimal.uint) :
  Forall (fun c => is_digit c = true) (bytes (NilEmpty.string_of_uint u)).
Proof.
  induction u; cbn [NilEmpty.string_of_uint]; rewrite ?bytes_cons;
    constructor; auto.
Qed.

(** No digit is an [x] in either case. *)
Lemma digit_not_x (c : Z) : is_digit c = true -> (lower c =? 120) = false.
Proof.
  unfold is_digit, lower.
  change (byte_code "0") with 48. change (byte_code "9") with 57.
  intros Hc. apply Z.eqb_neq. intros Heq.
  assert (Z.log2 (Z.lor c 32) = Z.max (Z.log2 c) (Z.log2 32)) as Hlog
    by (apply Z.log2_lor; lia).
  rewrite Heq in Hlog. change (Z.log2 120) with 6 in Hlog.
  change (Z.log2 32) with 5 in Hlog.
  assert (Z.log2 c < 6) by (apply Z.log2_lt_pow2; lia). lia.
Qed.

(** A string of digits is read as the number it denotes, with no
    exponent. *)
Lemma readFloat_whole (u : Decimal.uint) :
  u <> Decimal.Nil ->
  readFloat (bytes (NilEmpty.string_of_uint u))
    = Some (FloatLit false false (Z.of_N (Pos.of_uint u)) 0
              (length (bytes (NilEmpty.string_of_uint u)))).
Proof.
  intros Hu.
  pose proof (uint_bytes_digits u) as Hdigits.
  destruct (read_mantissa_whole u false 0) as (dig' & k' & d' & Hread & Hdig).
  rewrite (Hdig (or_intror Hu)) in Hread. clear Hdig.
  destruct (bytes (NilEmpty.string_of_uint u)) as [|c b] eqn:Hb.
  { destruct u; try congruence; discriminate Hb. }
  apply Forall_cons in Hdigits as [Hc Hrest].
  assert (is_hex_prefix (c :: b) = false) as Hhex.
  { unfold is_hex_prefix. destruct b as [|c1 [|c2 b]]; try reflexivity.
    apply Forall_cons in Hrest as [Hc1 _].
    change (byte_code "x") with 120. rewrite (digit_not_x c1 Hc1).
    apply andb_false_r. }
  unfold readFloat. unfold is_digit in Hc.
  change (byte_code "0") with 48 in Hc. change (byte_code "9") with 57 in Hc.
  change (byte_code "+") with 43. change (byte_code "-") with 45.
  replace (c =? 43) with false by lia. replace (c =? 45) with false by lia.
  unfold read_unsigned. rewrite Hhex. fold mant_init in Hread. rewrite Hread.
  cbn [sawdigits negb sawdot nd dp mantissa underscores read_exponent orb andb].
  rewrite Nat.sub_0_r.
  replace (if Z.of_N (Pos.of_uint u) =? 0 then 0 else k' + 0 - k') with 0;
    [reflexivity|].
  destruct (_ =? 0); lia.
Qed.

(** The decimal numeral of a whole number that is a binary32 number
    parses to that number. *)
Lemma ParseFloat_decimal (n : Z) :
  0 <= n ->
  ParseFloat (decimal n)
    = (float32.round_ratio false n 1,
       if float32.is_inf (float32.round_ratio false n 1) then Some ErrRange else None).
Proof.
  intros Hn. unfold decimal.
  assert (N.to_uint (Z.to_N n) <> Decimal.Nil) as Hu.
  { destruct (Z.to_N n) as [|p]; [discriminate|].
    apply DecimalPos.Unsigned.to_uint_nonnil. }
  assert (Z.of_N (Pos.of_uint (N.to_uint (Z.to_N n))) = n) as Hval.
  { change (Pos.of_uint (N.to_uint (Z.to_N n)))
      with (N.of_uint (N.to_uint (Z.to_N n))).
    rewrite DecimalN.Unsigned.of_to. lia. }
  pose proof (readFloat_whole _ Hu) as Hread. rewrite Hval in Hread.
  assert (NilZero.string_of_uint (N.to_uint (Z.to_N n))
            = NilEmpty.string_of_uint (N.to_uint (Z.to_N n))) as ->.
  { destruct (N.to_uint (Z.to_N n)); [congruence|reflexivity..]. }
  assert (starts_unsigned (bytes (NilEmpty.string_of_uint (N.to_uint (Z.to_N n)))) = true)
    as Hstart.
  { pose proof (uint_bytes_digits (N.to_uint (Z.to_N n))) as Hd.
    destruct (bytes _) as [|c b]; [discriminate Hread|].
    apply Forall_cons in Hd as [Hc _]. cbn [starts_unsigned]. rewrite Hc. reflexivity. }
  destruct (special_unsigned _ Hstart) as [Hsp _].
  unfold ParseFloat, atof32. rewrite Hsp, Hread.
  cbn [lit_len lit_value lit_neg lit_mant lit_hex lit_exp].
  rewrite Nat.eqb_refl. cbn [negb andb].
  unfold lit_value, float32.round_scaled.
  cbn [lit_neg lit_mant lit_hex lit_exp Z.leb Z.compare]. change (10 ^ 0) with 1.
  rewrite Z.mul_1_r. reflexivity.
Qed.

Lemma of_Z_whole (n : Z) : 0 <= n -> float32.of_Z n = float32.round_ratio false n 1.
Proof.
  intros Hn. unfold float32.of_Z, float32.round_scaled. cbn [Z.leb Z.compare].
  replace (n <? 0) with false by lia. rewrite Z.abs_eq by exact Hn.
  change (2 ^ 0) with 1. rewrite Z.mul_1_r. reflexivity.
Qed.

(** A whole number below [2^24], written in decimal, parses without
    error to the binary32 number of that value, which is displayed as
    the same numeral followed by two zeros. *)
Lemma whole_price (n : Z) :
  0 <= n < 2 ^ 24 ->
  ParseFloat (decimal n) = (float32.of_Z n, None) /\
  whole_value (float32.of_Z n) n /\
  String_ (float32.of_Z n) = "$" +:+ decimal n +:+ ".00".
Proof.
  intros [Hn Hlt]. rewrite ParseFloat_decimal, of_Z_whole by exact Hn.
  destruct (Z.eq_dec n 0) as [->|Hnz]; [repeat split; reflexivity|].
  destruct (round_ratio_whole n ltac:(lia)) as (mm & e & -> & He & Hmm).
  split; [reflexivity|]. split; [split; assumption|].
  apply String_whole; assumption.
Qed.

End ParseWhole.

(** X14. Whole prices round-trip. For every whole number [n] from 0 to
    16777215 (below [2^24]), [create] with the decimal numeral of [n] as
    its price text, for a name that is not in the store, succeeds and
    stores the binary32 number whose value is exactly [n], and both its
    answer and a [price] request that follows show the price as
    [$<n>.00]. *)
Theorem whole_price_round_trip `{UnicodeTables}
  (n : Z) (m : gmap string dollars) (req req' : http.Request) :
  0 <= n < 2 ^ 24 ->
  price_of req = strconv.decimal n ->
  m !! item_of req = None ->
  item_of req' = item_of req ->
  exists db',
    serve create (idle m) req = Some (db', Created (item_of req) (float32.of_Z n)) /\
    items db' !! item_of req = Some (float32.of_Z n) /\
    whole_value (float32.of_Z n) n /\
    serve price db' req' = Some (db', Price (float32.of_Z n)) /\
    http.Body (Created (item_of req) (float32.of_Z n))
      = "created " +:+ item_of req +:+ ": $" +:+ strconv.decimal n +:+ ".00" +:+ LF /\
    http.Body (Price (float32.of_Z n)) = "$" +:+ strconv.decimal n +:+ ".00" +:+ LF.
Proof.
  intros Hn Hprice Hfresh Hsame.
  destruct (whole_price n Hn) as (Hparse & Hvalue & Hshow).
  exists (idle (<[item_of req := float32.of_Z n]> m)).
  rewrite serve_create, Hprice, Hparse, Hfresh, serve_price, Hsame, lookup_insert_eq.
  split; [reflexivity|]. split; [apply lookup_insert_eq|].
  split; [exact Hvalue|]. split; [reflexivity|].
  unfold Created, Price, response. cbn [http.Body]. rewrite Hshow.
  rewrite !append_cons, !append_nil, !append_assoc, !append_cons, !append_nil.
  split; reflexivity.
Qed.

Lemma whole_price_round_trip_witness :
  let req := request [("item", "boots"); ("price", "1250")] in
  exists db',
    serve (@create latin1_tables) main_db req
      = Some (db', Created "boots" (float32.of_Z 1250)) /\
    serve (@price latin1_tables) db' (request [("item", "boots")])
      = Some (db', Price (float32.of_Z 1250)) /\
    http.Body (Price (float32.of_Z 1250)) = "$1250.00" +:+ LF.
Proof.
  intros req.
  destruct (@whole_price_round_trip latin1_tables 1250 (items main_db) req
              (request [("item", "boots")]) ltac:(lia) eq_refl eq_refl eq_refl)
    as (db' & H1 & _ & _ & H2 & _ & H3).
  exists db'. split; [exact H1|]. split; [exact H2|exact H3].
Defined.

(** * Readers do not exclude each other *)

Section SharedReads.
Context `{UnicodeTables}.

Lemma price_body (req : http.Request) :
  exists p, price req = RLock p /\ in_read_section p /\
            next_op p = Some (OpLookup (item_of req)).
Proof.
  unfold price, defer. eexists. split; [reflexivity|]. cbn. split; [|reflexivity].
  apply rs_do; [reflexivity|]. intros [old|]; repeat constructor.
Qed.

End SharedReads.

(** X15. [price] takes the read lock, so two [price] requests can be in
    their critical sections at once: among any concurrent calls, for any
    two [price] calls there is a reachable state in which both hold the
    read lock, the mutex counts two readers and no writer, and both are
    about to read the map. *)
Theorem price_readers_overlap `{UnicodeTables}
  (m : gmap string dollars) (calls : list (route * http.Request))
  (i j : nat) (req_i req_j : http.Request) :
  i <> j ->
  calls !! i = Some (RoutePrice, req_i) ->
  calls !! j = Some (RoutePrice, req_j) ->
  exists (c : config) (p q : prog) (w w' : http.ResponseWriter),
    steps (launch_calls (idle m) calls) c /\
    threads c !! i = Some (p, w) /\ threads c !! j = Some (q, w') /\
    in_read_section p /\ in_read_section q /\
    next_op p = Some (OpLookup (item_of req_i)) /\
    next_op q = Some (OpLookup (item_of req_j)) /\
    shared c = reading m 2.
Proof.
  intros Hne Hi Hj.
  destruct (price_body req_i) as (p & Hp & Hrp & Hnp).
  destruct (price_body req_j) as (q & Hq & Hrq & Hnq).
  set (ts := threads (launch_calls (idle m) calls)).
  assert (ts !! i = Some (RLock p, http.NewRecorder)) as Hti.
  { unfold ts, launch_calls. cbn [threads]. rewrite list_lookup_fmap, Hi.
    cbn [fmap option_fmap option_map fst snd handler]. rewrite Hp. reflexivity. }
  assert (ts !! j = Some (RLock q, http.NewRecorder)) as Htj.
  { unfold ts, launch_calls. cbn [threads]. rewrite list_lookup_fmap, Hj.
    cbn [fmap option_fmap option_map fst snd handler]. rewrite Hq. reflexivity. }
  assert (i < length ts)%nat as Hli by (eapply lookup_lt_Some, Hti).
  assert (j < length ts)%nat as Hlj by (eapply lookup_lt_Some, Htj).
  exists {| shared := reading m 2;
            threads := <[j := (q, http.NewRecorder)]>
                         (<[i := (p, http.NewRecorder)]> ts) |},
    p, q, http.NewRecorder, http.NewRecorder.
  split.
  - eapply rtc_l.
    { apply (step_thread (launch_calls (idle m) calls) i (RLock p) p
               http.NewRecorder http.NewRecorder (reading m 1) Hti).
      reflexivity. }
    eapply rtc_l; [|apply rtc_refl].
    apply (step_thread {| shared := reading m 1;
                          threads := <[i := (p, http.NewRecorder)]> ts |}
             j (RLock q) q http.NewRecorder http.NewRecorder (reading m 2)).
    + cbn [threads]. rewrite list_lookup_insert_ne by exact Hne. exact Htj.
    + reflexivity.
  - cbn [threads shared].
    rewrite list_lookup_insert_ne by congruence.
    rewrite !list_lookup_insert_eq by (rewrite ?length_insert; assumption).
    auto 10.
Qed.

Lemma price_readers_overlap_witness :
  let calls := [(RoutePrice, request [("item", "shoes")]);
                (RoutePrice, request [("item", "socks")])] in
  exists (c : config) (p q : prog) (w w' : http.ResponseWriter),
    steps (@launch_calls latin1_tables main_db calls) c /\
    threads c !! 0%nat = Some (p, w) /\ threads c !! 1%nat = Some (q, w') /\
    next_op p = Some (OpLookup "shoes") /\
    next_op q = Some (OpLookup "socks") /\
    readers (mutex (shared c)) = 2%nat.
Proof.
  intros calls.
  destruct (@price_readers_overlap latin1_tables (items main_db) calls 0%nat 1%nat
              (request [("item", "shoes")]) (request [("item", "socks")])
              ltac:(discriminate) eq_refl eq_refl)
    as (c & p & q & w & w' & Hsteps & Hp & Hq & _ & _ & Hnp & Hnq & Hsh).
  exists c, p, q, w, w'. rewrite Hsh. auto 10.
Defined.
